(** * genre-bot: the store, the scoring rule, the cursor, search and pagination

    A shallow embedding of [src/main.py].  The SQLite tables become finite
    maps that are threaded through the operations, Python's [None] becomes
    [option], the clock becomes an argument, and the Discord plumbing (embeds,
    messages) is left out: every handler is modelled by the value it computes
    and the store it leaves behind. *)

From Stdlib Require Import ZArith List Lia Bool Ascii String Floats Sorted.
From stdpp Require Import gmap strings list pretty.

#[local] Open Scope Z_scope.
#[local] Set Warnings "-inexact-float".

(** ** Python values *)

(** Truthiness of an [int], as tested by [if special:] and [if flou:]. *)
Definition truthy (z : Z) : bool := negb (z =? 0).

(** ** The store ([bot.db])

    [progress(user_id PRIMARY KEY, idx)] and
    [ratings(user_id, genre_id, ..., PRIMARY KEY (user_id, genre_id))].
    Python integers are unbounded; the ones stored here (Discord user ids,
    catalogue positions, scores) stay inside SQLite's 64-bit INTEGER. *)

(** A row of [ratings] as [get_rating] selects it:
    [(score1, score2, flag1, flag2, comment, updated_at)]. *)
Record rating_row := RatingRow {
  score1 : option Z;
  score2 : option Z;
  flag1 : Z;
  flag2 : Z;
  comment : option string;
  updated_at : string
}.

Record db := Db {
  progress : gmap Z Z;
  ratings : gmap (Z * Z) rating_row
}.

Definition db_empty : db := Db ∅ ∅.

(** [get_user_idx]: the stored cursor, or 0 after inserting the row. *)
Definition get_user_idx (d : db) (user_id : Z) : Z * db :=
  match progress d !! user_id with
  | None => (0, Db (<[user_id := 0]> (progress d)) (ratings d))
  | Some idx => (idx, d)
  end.

(** [set_user_idx]: [INSERT ... ON CONFLICT(user_id) DO UPDATE SET idx]. *)
Definition set_user_idx (d : db) (user_id idx : Z) : db :=
  Db (<[user_id := idx]> (progress d)) (ratings d).

Definition get_rating (d : db) (user_id genre_id : Z) : option rating_row :=
  ratings d !! (user_id, genre_id).

(** The keyword arguments of [upsert_rating]; [None] is the default of each
    and means that the caller did not supply the field. *)
Record rating_args := RatingArgs {
  arg_score1 : option Z;
  arg_score2 : option Z;
  arg_flag1 : option Z;
  arg_flag2 : option Z;
  arg_comment : option string
}.

(** [x if arg is None else arg]. *)
Definition keep_if_none {A} (stored : A) (arg : option A) : A :=
  match arg with None => stored | Some v => v end.

(** The merge between the two transactions of [upsert_rating]: the values
    bound to the INSERT, computed from the row that [get_rating] returned. *)
Definition merge_rating (existing : option rating_row) (a : rating_args)
    (now : string) : rating_row :=
  match existing with
  | Some ex =>
      RatingRow
        (match arg_score1 a with None => score1 ex | Some v => Some v end)
        (match arg_score2 a with None => score2 ex | Some v => Some v end)
        (keep_if_none (flag1 ex) (arg_flag1 a))
        (keep_if_none (flag2 ex) (arg_flag2 a))
        (match arg_comment a with None => comment ex | Some c => Some c end)
        now
  | None =>
      RatingRow (arg_score1 a) (arg_score2 a)
        (keep_if_none 0 (arg_flag1 a))
        (keep_if_none 0 (arg_flag2 a))
        (arg_comment a)
        now
  end.

(** The second transaction: [INSERT ... ON CONFLICT(user_id, genre_id)
    DO UPDATE SET] every column to the bound value. *)
Definition write_rating (d : db) (user_id genre_id : Z) (r : rating_row) : db :=
  Db (progress d) (<[(user_id, genre_id) := r]> (ratings d)).

(** [upsert_rating]: read the clock, read the row, merge, write. *)
Definition upsert_rating (d : db) (user_id genre_id : Z) (a : rating_args)
    (now : string) : db :=
  let existing := get_rating d user_id genre_id in
  write_rating d user_id genre_id (merge_rating existing a now).

(** ** The two transactions of [upsert_rating] under interleaving

    [upsert_rating] opens one connection for the SELECT of [get_rating] and a
    second one for the INSERT; each commits on its own.  A call in flight is
    therefore in one of three states, and a schedule picks which call runs
    its next transaction. *)
Inductive upsert_pc :=
| PcRead (a : rating_args) (now : string)
| PcWrite (merged : rating_row)
| PcDone.

Definition upsert_step (user_id genre_id : Z) (d : db) (pc : upsert_pc)
    : db * upsert_pc :=
  match pc with
  | PcRead a now =>
      (d, PcWrite (merge_rating (get_rating d user_id genre_id) a now))
  | PcWrite merged => (write_rating d user_id genre_id merged, PcDone)
  | PcDone => (d, PcDone)
  end.

(** Two calls A and B on the same key; [true] in the schedule lets A take
    its next transaction, [false] lets B. *)
Fixpoint run_two (user_id genre_id : Z) (sched : list bool)
    (d : db) (pa pb : upsert_pc) : db * upsert_pc * upsert_pc :=
  match sched with
  | [] => (d, pa, pb)
  | true :: sched' =>
      let '(d', pa') := upsert_step user_id genre_id d pa in
      run_two user_id genre_id sched' d' pa' pb
  | false :: sched' =>
      let '(d', pb') := upsert_step user_id genre_id d pb in
      run_two user_id genre_id sched' d' pa pb'
  end.

(** What a later call keeps of an earlier one, field by field: the later
    call's value when it supplied one, else the earlier call's. *)
Definition kept {A} (first second : option A) (stored : option A) : Prop :=
  (∀ v, second = Some v → stored = Some v)
  ∧ (∀ v, first = Some v → second = None → stored = Some v).

(** ** Scoring *)

(** An [int] operand of float arithmetic, rounded to the nearest double
    (exact for every score).  Python raises [OverflowError] beyond the
    largest double, which no stored INTEGER reaches. *)
Definition float_of_int (z : Z) : float :=
  SF2Prim (binary_normalize prec emax z 0 false).

Definition computed_score (skip kiff : option Z) (special flou : Z)
    : option float :=
  if truthy special then None
  else match skip, kiff with
       | Some skip, Some kiff =>
           if truthy flou
           then Some (0.35 * float_of_int skip + 0.65 * float_of_int kiff)%float
           else Some (0.5 * float_of_int skip + 0.5 * float_of_int kiff)%float
       | _, _ => None
       end.

(** ** The catalogue and [/next] *)

(** [l[i]] for a Python list: negative indices count from the end,
    [None] stands for [IndexError]. *)
Definition py_index {A} (l : list A) (i : Z) : option A :=
  let len := Z.of_nat (length l) in
  if i <? 0
  then (if len + i <? 0 then None else l !! Z.to_nat (len + i))
  else l !! Z.to_nat i.

(** [next_genre]: the item shown, and the store afterwards.  [None] is the
    [ZeroDivisionError] of an empty catalogue, which [load_genres] rules out
    at start-up; the cursor row has been created by then. *)
Definition next_genre (genres : list string) (d : db) (user_id : Z)
    : option (Z * string) * db :=
  let '(idx, d) := get_user_idx d user_id in
  let n := Z.of_nat (length genres) in
  if n =? 0 then (None, d)
  else
    let idx := idx mod n in
    let genre_id := idx in
    match py_index genres idx with
    | None => (None, d)
    | Some genre_name =>
        (Some (genre_id, genre_name), set_user_idx d user_id (idx + 1))
    end.

(** [n] successive [/next] commands of one user: what each showed. *)
Fixpoint next_genre_n (genres : list string) (d : db) (user_id : Z) (n : nat)
    : list (option (Z * string)) * db :=
  match n with
  | O => ([], d)
  | S n' =>
      let '(r, d) := next_genre genres d user_id in
      let '(rs, d) := next_genre_n genres d user_id n' in
      (r :: rs, d)
  end.

(** The stored cursor of a user, 0 when there is no row yet. *)
Definition stored_idx (d : db) (user_id : Z) : Z :=
  default 0 (progress d !! user_id).

(** ** Strings

    A Python [str] is represented by its UTF-8 encoding, one [ascii] per
    byte, so that an ASCII character is one byte and [q in s] is containment
    of the encodings.  The functions [lower], [isspace] and [strip] of
    [PyStr] follow [str.lower], [str.isspace] and [str.strip] on ASCII text
    only: [lower] maps [A-Z] to [a-z] and [strip] removes the ASCII
    characters for which [str.isspace] holds.  [/search], which is specified
    for every name and query, takes [str.lower] and [str.strip] as
    parameters instead. *)
Module PyStr.

Definition lower_char (c : ascii) : ascii :=
  let n := N_of_ascii c in
  if ((65 <=? n) && (n <=? 90))%N then ascii_of_N (n + 32) else c.

Fixpoint lower (s : string) : string :=
  match s with
  | EmptyString => EmptyString
  | String c s' => String (lower_char c) (lower s')
  end.

(** TAB, LF, VT, FF, CR, the separators FS, GS, RS, US, and the space. *)
Definition isspace (c : ascii) : bool :=
  let n := N_of_ascii c in
  (((9 <=? n) && (n <=? 13)) || ((28 <=? n) && (n <=? 32)))%N.

Fixpoint lstrip (s : string) : string :=
  match s with
  | EmptyString => EmptyString
  | String c s' => if isspace c then lstrip s' else s
  end.

(** [rstrip]: a character goes when it is a space and all that follows it
    has gone. *)
Fixpoint rstrip (s : string) : string :=
  match s with
  | EmptyString => EmptyString
  | String c s' =>
      match rstrip s' with
      | EmptyString => if isspace c then EmptyString else String c EmptyString
      | r => String c r
      end
  end.

Definition strip (s : string) : string := rstrip (lstrip s).

Fixpoint all_space (s : string) : bool :=
  match s with
  | EmptyString => true
  | String c s' => isspace c && all_space s'
  end.

Fixpoint startswith (q s : string) : bool :=
  match q, s with
  | EmptyString, _ => true
  | String a q', String b s' => Ascii.eqb a b && startswith q' s'
  | String _ _, EmptyString => false
  end.

(** [q in s]. *)
Fixpoint contains (q s : string) : bool :=
  startswith q s ||
  match s with
  | EmptyString => false
  | String _ s' => contains q s'
  end.

(** [not q]: the empty string is the only falsy one. *)
Definition is_empty (s : string) : bool :=
  match s with EmptyString => true | String _ _ => false end.

End PyStr.

(** Case-insensitive containment, as the specification words it: some
    stretch of the name equals the query when both are lowered. *)
Definition ci_substring (lower : string → string) (q g : string) : Prop :=
  ∃ pre mid post, g = pre +:+ mid +:+ post ∧ lower mid = lower q.

(** A lowering that works letter by letter. *)
Fixpoint map_chars (f : ascii → ascii) (s : string) : string :=
  match s with
  | EmptyString => EmptyString
  | String c s' => String (f c) (map_chars f s')
  end.

(** ** Pagination *)

(** [math.ceil(n / k)].  The quotient is a double in Python; for lengths of
    in-memory lists its rounding never reaches the next integer, so the
    ceiling is the exact one, computed here on integers. *)
Definition ceil_div (n k : Z) : Z := - ((- n) / k).

(** [c] is the ceiling of the exact quotient [n / k]. *)
Definition is_ceiling (n k c : Z) : Prop := k * (c - 1) < n ≤ k * c.

(** [l[start:stop]] for a Python list: bounds are clamped to the list, a
    negative bound counts from the end. *)
Definition clamp_bound (len i : Z) : Z :=
  if i <? 0 then Z.max 0 (len + i) else Z.min i len.

Definition py_slice {A} (l : list A) (start stop : Z) : list A :=
  let len := Z.of_nat (length l) in
  let lo := clamp_bound len start in
  let hi := clamp_bound len stop in
  take (Z.to_nat (hi - lo)) (drop (Z.to_nat lo) l).

(** [enumerate(l)], counting from [i]. *)
Fixpoint enumerate_from {A} (i : Z) (l : list A) : list (Z * A) :=
  match l with
  | [] => []
  | x :: l' => (i, x) :: enumerate_from (i + 1) l'
  end.

Definition enumerate {A} (l : list A) : list (Z * A) := enumerate_from 0 l.

Module SearchResultsView.

Record t := Make {
  user_id : Z;
  results : list (Z * string);
  query : string;
  page_size : Z;
  page : Z
}.

(** [__init__]: the first page. *)
Definition init (user_id : Z) (results : list (Z * string)) (query : string)
    (page_size : Z) : t :=
  Make user_id results query page_size 0.

Definition _total_pages (v : t) : Z :=
  Z.max 1 (ceil_div (Z.of_nat (length (results v))) (page_size v)).

Definition _page_slice (v : t) : list (Z * string) * Z * Z :=
  let start := page v * page_size v in
  let end_ := start + page_size v in
  (py_slice (results v) start end_, start, end_).

Definition set_page (v : t) (p : Z) : t :=
  Make (user_id v) (results v) (query v) (page_size v) p.

Definition prev_button (v : t) : t := set_page v (Z.max 0 (page v - 1)).

Definition next_button (v : t) : t :=
  set_page v (Z.min (_total_pages v - 1) (page v + 1)).

(** [_update_buttons]: the [disabled] state of (previous, next). *)
Definition _update_buttons (v : t) : bool * bool :=
  (page v <=? 0, _total_pages v - 1 <=? page v).

End SearchResultsView.

(** ** [/search] *)

Inductive search_outcome :=
| SearchRejected                         (* "La recherche ne peut pas être vide." *)
| SearchNoMatch                          (* "Aucun genre ne correspond ..." *)
| SearchShown (v : SearchResultsView.t).

(** [str.lower] and [str.strip] are Python's, with the Unicode tables behind
    them; [search_genres] is modelled for whatever they compute. *)
Section Search.
Variables (lower strip : string → string).

(** The list comprehension of [search_genres]. *)
Definition search_matches (genres : list string) (q : string)
    : list (Z * string) :=
  List.filter (fun ig => PyStr.contains q (lower (snd ig)))
    (enumerate genres).

Definition search_genres (genres : list string) (user_id : Z) (query : string)
    : search_outcome :=
  let q := lower (strip query) in
  if PyStr.is_empty q then SearchRejected
  else
    let results := search_matches genres q in
    match results with
    | [] => SearchNoMatch
    | _ => SearchShown (SearchResultsView.init user_id results query 15)
    end.

End Search.

(** [str.lower] where it does not work letter by letter: a capital sigma
    that ends a word becomes the final sigma, any other one the plain small
    sigma.  This function has the values of [str.lower] on the two strings
    of the Greek example and is [PyStr.lower] elsewhere. *)
Definition lower_final_sigma (s : string) : string :=
  if String.eqb s "ΟΔΟΣ" then "οδος"
  else if String.eqb s "Σ" then "σ"
  else PyStr.lower s.

(** What the user is given to page through. *)
Definition search_results (o : search_outcome) : option (list (Z * string)) :=
  match o with
  | SearchRejected => None
  | SearchNoMatch => Some []
  | SearchShown v => Some (SearchResultsView.results v)
  end.

(** [math.ceil] of a double and the quotient as Python computes it, kept to
    check [ceil_div] against ([math.ceil] raises on infinities and NaN, which
    a quotient of two lengths is not). *)
Definition float_ceil (f : float) : Z :=
  match Prim2SF f with
  | S754_finite s m e =>
      let v := if s then Z.neg m else Z.pos m in
      if 0 <=? e then v * 2 ^ e else - ((- v) / 2 ^ (- e))
  | _ => 0
  end.

Definition ceil_div_float (n k : Z) : Z :=
  float_ceil (float_of_int n / float_of_int k)%float.

(** ** Sorting

    [sorted(l, key=..., reverse=...)] is a stable sort that compares keys
    with [<] only; with [reverse=True] the list is reversed, sorted and
    reversed again.  On keys that [<] orders totally every stable sort
    returns the same list, so the insertion sort below stands for it. *)
Section Sorting.
Context {A K : Type} (key : A → K) (lt : K → K → bool).

(** [x] goes in front of the first element that is not smaller. *)
Fixpoint insert_by (x : A) (l : list A) : list A :=
  match l with
  | [] => [x]
  | y :: l' =>
      if lt (key y) (key x) then y :: insert_by x l' else x :: y :: l'
  end.

Fixpoint sort_by (l : list A) : list A :=
  match l with
  | [] => []
  | x :: l' => insert_by x (sort_by l')
  end.

Definition sorted (l : list A) (reverse : bool) : list A :=
  if reverse then rev (sort_by (rev l)) else sort_by l.
End Sorting.

(** ** [/rank] *)

Inductive rank_order := Desc | Asc.

Module RankView.

(** [(score, genre_id, name)]. *)
Definition item : Type := float * Z * string.

Definition score (x : item) : float := fst (fst x).
Definition genre_id (x : item) : Z := snd (fst x).

Record t := Make {
  user_id : Z;
  items : list item;
  order : rank_order;
  page : Z;
  page_size : Z
}.

Definition init (user_id : Z) (items : list item) : t :=
  Make user_id items Desc 0 15.

Definition _sorted_items (v : t) : list item :=
  let reverse := match order v with Desc => true | Asc => false end in
  sorted score PrimFloat.ltb (items v) reverse.

Definition _total_pages (v : t) : Z :=
  Z.max 1 (ceil_div (Z.of_nat (length (items v))) (page_size v)).

Definition _page_slice (v : t) : list item * Z * Z * Z :=
  let sitems := _sorted_items v in
  let start := page v * page_size v in
  let end_ := start + page_size v in
  (py_slice sitems start end_, start, end_, Z.of_nat (length sitems)).

Definition set_page (v : t) (p : Z) : t :=
  Make (user_id v) (items v) (order v) p (page_size v).

Definition prev_button (v : t) : t := set_page v (Z.max 0 (page v - 1)).

Definition next_button (v : t) : t :=
  set_page v (Z.min (_total_pages v - 1) (page v + 1)).

Definition _update_buttons (v : t) : bool * bool :=
  (page v <=? 0, _total_pages v - 1 <=? page v).

(** [RankOrderSelect.callback]: the chosen order, back on the first page. *)
Definition select_order (v : t) (o : rank_order) : t :=
  Make (user_id v) (items v) o 0 (page_size v).

End RankView.

(** The score of a stored row. *)
Definition row_score (r : rating_row) : option float :=
  computed_score (score1 r) (score2 r) (flag1 r) (flag2 r).

Definition is_scored (r : rating_row) : bool :=
  match row_score r with Some _ => true | None => false end.

(** The row has a score, and it equals [s] (as [==] on doubles). *)
Definition scored_as (s : float) (r : rating_row) : bool :=
  match row_score r with Some sc => (sc =? s)%float | None => false end.

(** The loop of [rank] over the fetched rows [(genre_id, row)]: rows without
    a computed score are skipped, the others are kept in fetch order.
    [None] is the [IndexError] of [genres[genre_id]]. *)
Fixpoint rank_items (genres : list string) (rows : list (Z * rating_row))
    : option (list RankView.item) :=
  match rows with
  | [] => Some []
  | (genre_id, r) :: rows' =>
      match computed_score (score1 r) (score2 r) (flag1 r) (flag2 r) with
      | None => rank_items genres rows'
      | Some sc =>
          match py_index genres genre_id with
          | None => None
          | Some name =>
              match rank_items genres rows' with
              | None => None
              | Some items => Some ((sc, genre_id, name) :: items)
              end
          end
      end
  end.

(** ** The everynoise link *)

(** The characters of [s] for which [f] holds: the join of a comprehension
    over the characters, and [re.sub] of a character class by nothing. *)
Fixpoint keep_chars (f : ascii → bool) (s : string) : string :=
  match s with
  | EmptyString => EmptyString
  | String c s' => if f c then String c (keep_chars f s') else keep_chars f s'
  end.

(** [unicodedata.normalize("NFKD", s)] and [unicodedata.combining(ch)]: ASCII
    text is its own decomposition and has no combining marks. *)
Definition nfkd (s : string) : string := s.

Definition combining (ch : ascii) : Z := 0.

(** The class [a-z0-9]. *)
Definition is_slug_char (c : ascii) : bool :=
  let n := N_of_ascii c in
  (((97 <=? n) && (n <=? 122)) || ((48 <=? n) && (n <=? 57)))%N.

(** The class [A-Za-z0-9], and whether every character of a string is in a
    class. *)
Definition is_alnum (c : ascii) : bool :=
  let n := N_of_ascii c in
  (((65 <=? n) && (n <=? 90)) || ((97 <=? n) && (n <=? 122))
   || ((48 <=? n) && (n <=? 57)))%N.

Fixpoint all_chars (f : ascii → bool) (s : string) : bool :=
  match s with
  | EmptyString => true
  | String c s' => f c && all_chars f s'
  end.

Definition slugify_for_everynoise (name : string) : string :=
  let s := PyStr.lower (PyStr.strip name) in
  let s := nfkd s in
  let s := keep_chars (λ ch, negb (truthy (combining ch))) s in
  let s := keep_chars (λ ch, negb (PyStr.isspace ch)) s in
  let s := keep_chars is_slug_char s in
  s.

Definition everynoise_url (genre_name : string) : string :=
  "https://everynoise.com/everynoise1d-"
  +:+ slugify_for_everynoise genre_name +:+ ".html".

(** ** Start-up *)


(** [db_init] on the table [genres(id PRIMARY KEY, name)]: filled from the
    catalogue only when it has no row. *)
Definition db_init (genres : list string) (tbl : gmap Z string) : gmap Z string :=
  let count := Z.of_nat (size tbl) in
  if count =? 0
  then foldl (λ t ig, <[fst ig := snd ig]> t) tbl (enumerate genres)
  else tbl.

(** ** The rating form and the flag buttons *)

Definition digit_val (c : ascii) : option Z :=
  let n := N_of_ascii c in
  if ((48 <=? n) && (n <=? 57))%N then Some (Z.of_N (n - 48)) else None.

(** The digits after the first one: a digit, or one underscore and a digit. *)
Fixpoint int_digits (acc : Z) (s : string) : option Z :=
  match s with
  | EmptyString => Some acc
  | String c s' =>
      match digit_val c with
      | Some d => int_digits (10 * acc + d) s'
      | None =>
          if Ascii.eqb c "_"
          then match s' with
               | String c' s'' =>
                   match digit_val c' with
                   | Some d => int_digits (10 * acc + d) s''
                   | None => None
                   end
               | EmptyString => None
               end
          else None
      end
  end.

Definition int_unsigned (s : string) : option Z :=
  match s with
  | String c s' =>
      match digit_val c with
      | Some d => int_digits d s'
      | None => None
      end
  | EmptyString => None
  end.

(** [int(v)] on ASCII text: white space around, an optional sign, decimal
    digits with single underscores between them.  [None] is [ValueError]. *)
Definition py_int (v : string) : option Z :=
  match PyStr.strip v with
  | String c r =>
      if Ascii.eqb c "+" then int_unsigned r
      else if Ascii.eqb c "-" then Z.opp <$> int_unsigned r
      else int_unsigned (String c r)
  | EmptyString => None
  end.

(** [parse_score]: [Some None] when the field is left empty, [None] for the
    [ValueError] of text that is no integer or of an integer outside 0-10. *)
Definition parse_score (v : option string) : option (option Z) :=
  match v with
  | None => Some None
  | Some v =>
      if PyStr.is_empty v then Some None
      else
        let v := PyStr.strip v in
        if PyStr.is_empty v then Some None
        else match py_int v with
             | None => None
             | Some n => if (n <? 0) || (10 <? n) then None else Some (Some n)
             end
  end.

(** [RateModal.on_submit] for the three text inputs: whether the rating was
    saved ([false]: "Notes invalides"), and the store afterwards. *)
Definition on_submit (d : db) (user_id genre_id : Z)
    (score1_value score2_value comment_value : option string) (now : string)
    : bool * db :=
  match parse_score score1_value with
  | None => (false, d)
  | Some s1 =>
      match parse_score score2_value with
      | None => (false, d)
      | Some s2 =>
          let comment :=
            match comment_value with
            | None => None
            | Some c => if PyStr.is_empty c then None else Some (PyStr.strip c)
            end in
          (true,
           upsert_rating d user_id genre_id (RatingArgs s1 s2 None None comment) now)
      end
  end.

(** [GenreView.toggle_flag1] and [toggle_flag2]. *)
Definition toggle_flag1 (d : db) (user_id genre_id : Z) (now : string) : db :=
  let f1 :=
    match get_rating d user_id genre_id with
    | Some r => if truthy (flag1 r) then 0 else 1
    | None => 1
    end in
  upsert_rating d user_id genre_id (RatingArgs None None (Some f1) None None) now.

Definition toggle_flag2 (d : db) (user_id genre_id : Z) (now : string) : db :=
  let f2 :=
    match get_rating d user_id genre_id with
    | Some r => if truthy (flag2 r) then 0 else 1
    | None => 1
    end in
  upsert_rating d user_id genre_id (RatingArgs None None None (Some f2) None) now.

(** What the handlers keep true of every stored row: scores, when present,
    within 0-10, and flags 0 or 1. *)
Definition score_ok (s : option Z) : Prop :=
  match s with Some n => 0 ≤ n ≤ 10 | None => True end.

Definition flag_ok (f : Z) : Prop := f = 0 ∨ f = 1.

Definition row_ok (r : rating_row) : Prop :=
  score_ok (score1 r) ∧ score_ok (score2 r) ∧ flag_ok (flag1 r) ∧ flag_ok (flag2 r).

Definition ratings_ok (d : db) : Prop :=
  ∀ u g r, get_rating d u g = Some r → row_ok r.

(** Arguments of [upsert_rating] that respect this. *)
Definition args_ok (a : rating_args) : Prop :=
  score_ok (arg_score1 a) ∧ score_ok (arg_score2 a)
  ∧ (∀ f, arg_flag1 a = Some f → flag_ok f)
  ∧ (∀ f, arg_flag2 a = Some f → flag_ok f).

(** ** [/info] *)

(** [info_genre]: the item shown, [None] for "ID de genre invalide". *)
Definition info_genre (genres : list string) (genre_id : Z)
    : option (Z * string) :=
  if (genre_id <? 0) || (Z.of_nat (length genres) <=? genre_id) then None
  else match py_index genres genre_id with
       | Some genre_name => Some (genre_id, genre_name)
       | None => None
       end.

(** ** The views in use *)

(** A click on the search view. *)
Inductive search_click := SearchPrev | SearchNext.

Definition search_click_apply (v : SearchResultsView.t) (c : search_click)
    : SearchResultsView.t :=
  match c with
  | SearchPrev => SearchResultsView.prev_button v
  | SearchNext => SearchResultsView.next_button v
  end.

(** A click on the rank view: a page button or a choice in the order menu. *)
Inductive rank_click := RankPrev | RankNext | RankSelect (o : rank_order).

Definition rank_click_apply (v : RankView.t) (c : rank_click) : RankView.t :=
  match c with
  | RankPrev => RankView.prev_button v
  | RankNext => RankView.next_button v
  | RankSelect o => RankView.select_order v o
  end.

(** The numbered lines of [RankView._make_embed]: the rank shown with each
    item of the page, [rank_start + idx]; none on a page without items. *)
Definition rank_lines (v : RankView.t) : list (Z * RankView.item) :=
  let '(page_items, start, _, _) := RankView._page_slice v in
  let rank_start := start + 1 in
  map (λ ix, (rank_start + fst ix, snd ix)) (enumerate page_items).

(** Not Special, and both notes present. *)
Definition eligible (r : rating_row) : bool :=
  negb (truthy (flag1 r))
  && match score1 r, score2 r with Some _, Some _ => true | _, _ => false end.

(** [rank]: [None] is the [IndexError] of a row whose genre is not in the
    catalogue. *)
Inductive rank_outcome :=
| RankNothing                         (* "Aucun genre classable ..." *)
| RankShown (v : RankView.t).

Definition rank (genres : list string) (rows : list (Z * rating_row))
    (user_id : Z) : option rank_outcome :=
  match rank_items genres rows with
  | None => None
  | Some [] => Some RankNothing
  | Some items => Some (RankShown (RankView.init user_id items))
  end.

(** ** [/stats] *)

(** The counters and lists that the loop of [stats] fills. *)
Record stats_acc := StatsAcc {
  special_count : Z;
  eligible_count : Z;
  flou_count : Z;
  scored_count : Z;
  scores : list float;
  skips : list (option Z);
  kiffs : list (option Z);
  scored_items : list RankView.item
}.

Definition stats_acc_init : stats_acc := StatsAcc 0 0 0 0 [] [] [] [].

(** One turn of the loop; [None] is the [IndexError] of [genres[genre_id]]. *)
Definition stats_row (genres : list string) (a : stats_acc)
    (row : Z * rating_row) : option stats_acc :=
  let '(genre_id, r) := row in
  if truthy (flag1 r)
  then Some (StatsAcc (special_count a + 1) (eligible_count a) (flou_count a)
               (scored_count a) (scores a) (skips a) (kiffs a) (scored_items a))
  else
    let eligible := eligible_count a + 1 in
    let flou := if truthy (flag2 r) then flou_count a + 1 else flou_count a in
    match computed_score (score1 r) (score2 r) (flag1 r) (flag2 r) with
    | None =>
        Some (StatsAcc (special_count a) eligible flou (scored_count a)
                (scores a) (skips a) (kiffs a) (scored_items a))
    | Some sc =>
        match py_index genres genre_id with
        | None => None
        | Some name =>
            Some (StatsAcc (special_count a) eligible flou (scored_count a + 1)
                    (scores a ++ [sc]) (skips a ++ [score1 r])
                    (kiffs a ++ [score2 r])
                    (scored_items a ++ [(sc, genre_id, name)]))
        end
    end.

Fixpoint stats_loop (genres : list string) (a : stats_acc)
    (rows : list (Z * rating_row)) : option stats_acc :=
  match rows with
  | [] => Some a
  | row :: rows' =>
      match stats_row genres a row with
      | None => None
      | Some a' => stats_loop genres a' rows'
      end
  end.

(** [scored_items.sort(key=..., reverse=True)], then [top5] and [bot5], as
    [stats] computes them once there is a scored item. *)
Definition stats_top_bottom (scored : list RankView.item)
    : list RankView.item * list RankView.item :=
  let scored := sorted RankView.score PrimFloat.ltb scored true in
  let top5 := py_slice scored 0 5 in
  let bot5 := rev (py_slice scored (-5) (Z.of_nat (length scored))) in
  (top5, bot5).

(** ** The embed of a genre *)

(** A byte that continues a character of the encoding (10xxxxxx). *)
Definition is_continuation (c : ascii) : bool :=
  let n := N_of_ascii c in ((128 <=? n) && (n <=? 191))%N.

(** [len(s)]: the number of characters, each counted at its first byte. *)
Fixpoint str_len (s : string) : nat :=
  match s with
  | EmptyString => O
  | String c s' => if is_continuation c then str_len s' else S (str_len s')
  end.

(** [s[:n]]: the first [n] characters, each with all of its bytes. *)
Fixpoint str_take (n : nat) (s : string) : string :=
  match s with
  | EmptyString => EmptyString
  | String c s' =>
      if is_continuation c then String c (str_take n s')
      else match n with
           | O => EmptyString
           | S n' => String c (str_take n' s')
           end
  end.

(** A [discord.Embed] as far as [build_embed] fills it: the fields are
    [(name, value, inline)]. *)
Record embed := Embed {
  embed_title : string;
  embed_description : string;
  embed_fields : list (string * string * bool);
  embed_footer : string
}.

(** [str(s) if s is not None else "—"]. *)
Definition score_text (s : option Z) : string :=
  match s with Some n => pretty n | None => "—" end.

Definition flag_text (f : Z) : string := if truthy f then "✅" else "⬜".

Definition build_embed (d : db) (genre_id : Z) (genre_name : string)
    (user_id : Z) : embed :=
  let url := everynoise_url genre_name in
  let title := "🎧 " +:+ genre_name in
  match get_rating d user_id genre_id with
  | Some r =>
      Embed title url
        ([("Skip"%string, score_text (score1 r), true);
          ("Kiff"%string, score_text (score2 r), true);
          ("Special"%string, flag_text (flag1 r), true);
          ("Flou"%string, flag_text (flag2 r), true)]
         ++ match comment r with
            | Some c =>
                if PyStr.is_empty c then []
                else [("Commentaire"%string, str_take 900 c, false)]
            | None => []
            end)
        ("Dernière mise à jour: " +:+ updated_at r)
  | None =>
      Embed title url
        [("Skip"%string, "—"%string, true); ("Kiff"%string, "—"%string, true);
         ("Special"%string, "⬜"%string, true); ("Flou"%string, "⬜"%string, true)]
        "Pas encore noté"
  end.

(** * Properties *)

(** ** The store *)

Lemma get_rating_upsert_eq d u g a now :
  get_rating (upsert_rating d u g a now) u g
  = Some (merge_rating (get_rating d u g) a now).
Proof. unfold upsert_rating, write_rating, get_rating. simpl. apply lookup_insert_eq. Qed.

(** A write to one pair leaves every other pair, and every cursor, alone. *)
Lemma get_rating_upsert_ne d u g a now u' g' :
  (u, g) ≠ (u', g') →
  get_rating (upsert_rating d u g a now) u' g' = get_rating d u' g'.
Proof.
  intros Hne. unfold upsert_rating, write_rating, get_rating. simpl.
  by apply lookup_insert_ne.
Qed.

Lemma progress_upsert d u g a now :
  progress (upsert_rating d u g a now) = progress d.
Proof. reflexivity. Qed.

(** C10: [set_user_idx] needs no existing row: whatever the store held for
    the user, the row exists afterwards with the given index, every other
    user's cursor and all ratings are as before, and a [get_user_idx] right
    after it returns that index and changes nothing. *)
Theorem set_user_idx_then_get (d : db) (user_id idx : Z) :
  let d' := set_user_idx d user_id idx in
  progress d' !! user_id = Some idx
  ∧ get_user_idx d' user_id = (idx, d')
  ∧ (∀ u, u ≠ user_id → progress d' !! u = progress d !! u)
  ∧ ratings d' = ratings d.
Proof.
  unfold set_user_idx, get_user_idx. simpl.
  rewrite lookup_insert_eq. repeat split.
  intros u Hu. by apply lookup_insert_ne.
Qed.

(** C2: after [upsert_rating] the pair has a row; a supplied field holds the
    supplied value, a field left out holds what was stored before (0 for a
    flag, NULL for a score or the comment, when there was no row), and
    [updated_at] is the time of the call.  In particular a call with only
    [score1=7] followed by one with only [comment="x"] leaves both. *)
Theorem upsert_rating_partial (d : db) (user_id genre_id : Z)
    (a : rating_args) (now : string) :
  let old := get_rating d user_id genre_id in
  (∃ r, get_rating (upsert_rating d user_id genre_id a now) user_id genre_id
        = Some r
    ∧ (∀ v, arg_score1 a = Some v → score1 r = Some v)
    ∧ (arg_score1 a = None → score1 r = old ≫= score1)
    ∧ (∀ v, arg_score2 a = Some v → score2 r = Some v)
    ∧ (arg_score2 a = None → score2 r = old ≫= score2)
    ∧ (∀ v, arg_flag1 a = Some v → flag1 r = v)
    ∧ (arg_flag1 a = None → flag1 r = default 0 (flag1 <$> old))
    ∧ (∀ v, arg_flag2 a = Some v → flag2 r = v)
    ∧ (arg_flag2 a = None → flag2 r = default 0 (flag2 <$> old))
    ∧ (∀ c, arg_comment a = Some c → comment r = Some c)
    ∧ (arg_comment a = None → comment r = old ≫= comment)
    ∧ updated_at r = now)
  ∧ (∀ now', ∃ r,
      get_rating
        (upsert_rating
           (upsert_rating d user_id genre_id
              (RatingArgs (Some 7) None None None None) now)
           user_id genre_id
           (RatingArgs None None None None (Some "x"%string)) now')
        user_id genre_id = Some r
      ∧ score1 r = Some 7 ∧ comment r = Some "x"%string
      ∧ updated_at r = now').
Proof.
  intros old. split.
  - eexists. split; [apply get_rating_upsert_eq|].
    fold old. destruct a as [s1 s2 f1 f2 c]; simpl.
    destruct old as [ex|]; simpl;
      repeat split; intros; simplify_eq; try reflexivity;
      repeat match goal with H : _ = None |- _ => rewrite H end; reflexivity.
  - intros now'. eexists. split; [apply get_rating_upsert_eq|].
    rewrite get_rating_upsert_eq. fold old.
    destruct old; simpl; auto.
Qed.

(** ** [upsert_rating] under interleaving *)

(** A call that takes its two transactions back to back is [upsert_rating]. *)
Lemma run_two_own_turns u g d a now pb sched :
  run_two u g (true :: true :: sched) d (PcRead a now) pb
  = run_two u g sched (upsert_rating d u g a now) PcDone pb.
Proof. reflexivity. Qed.

Lemma run_two_other_turns u g d b now pa sched :
  run_two u g (false :: false :: sched) d pa (PcRead b now)
  = run_two u g sched (upsert_rating d u g b now) pa PcDone.
Proof. reflexivity. Qed.

(** C9, the interleaving that loses a field: A supplies [score1=7], B
    supplies [comment="x"]; both read before either writes; B's write then
    puts back the NULL score it had read.  So it is not the case that a
    score supplied by A alone survives every complete schedule. *)
Lemma upsert_rating_lost_update :
  ¬ (∀ (sched : list bool) (d : db) (u g : Z) (a b : rating_args)
       (ta tb : string) (v : Z),
       snd (fst (run_two u g sched d (PcRead a ta) (PcRead b tb))) = PcDone →
       snd (run_two u g sched d (PcRead a ta) (PcRead b tb)) = PcDone →
       arg_score1 a = Some v → arg_score1 b = None →
       get_rating (fst (fst (run_two u g sched d (PcRead a ta) (PcRead b tb))))
         u g ≫= score1 = Some v).
Proof.
  intros H.
  specialize (H [true; false; true; false] db_empty 1 0
                (RatingArgs (Some 7) None None None None)
                (RatingArgs None None None None (Some "x"%string))
                "t1"%string "t2"%string 7
                eq_refl eq_refl eq_refl eq_refl).
  vm_compute in H. discriminate H.
Qed.

(** The row that this interleaving leaves: B's comment, no score. *)
Example upsert_rating_interleaved_row :
  get_rating
    (fst (fst (run_two 1 0 [true; false; true; false] db_empty
                 (PcRead (RatingArgs (Some 7) None None None None) "t1")
                 (PcRead (RatingArgs None None None None (Some "x"%string)) "t2"))))
    1 0
  = Some (RatingRow None None 0 0 (Some "x"%string) "t2").
Proof. reflexivity. Qed.

(** C9 as the code has it: the read and the write of a call are two
    transactions.  The write stores, in one statement, the merge of the
    arguments with the row that was read, whatever the table holds by then;
    two calls that run one after the other amount to two [upsert_rating]s and
    lose nothing: the later call's fields are stored, and so are the fields
    that only the earlier call supplied. *)
Theorem upsert_rating_two_transactions (d : db) (u g : Z)
    (a b : rating_args) (ta tb : string) :
  (∀ d_now,
     get_rating
       (fst (upsert_step u g d_now
               (snd (upsert_step u g d (PcRead a ta))))) u g
     = Some (merge_rating (get_rating d u g) a ta))
  ∧ run_two u g [true; true; false; false] d (PcRead a ta) (PcRead b tb)
    = (upsert_rating (upsert_rating d u g a ta) u g b tb, PcDone, PcDone)
  ∧ ∃ r,
      get_rating (upsert_rating (upsert_rating d u g a ta) u g b tb) u g
      = Some r
      ∧ kept (arg_score1 a) (arg_score1 b) (score1 r)
      ∧ kept (arg_score2 a) (arg_score2 b) (score2 r)
      ∧ kept (arg_flag1 a) (arg_flag1 b) (Some (flag1 r))
      ∧ kept (arg_flag2 a) (arg_flag2 b) (Some (flag2 r))
      ∧ kept (arg_comment a) (arg_comment b) (comment r)
      ∧ updated_at r = tb.
Proof.
  split; [|split].
  - intros d_now. simpl. unfold write_rating, get_rating at 1. simpl.
    apply lookup_insert_eq.
  - reflexivity.
  - eexists. split.
    { rewrite get_rating_upsert_eq, get_rating_upsert_eq. reflexivity. }
    destruct a as [a1 a2 a3 a4 a5], b as [b1 b2 b3 b4 b5].
    destruct (get_rating d u g) as [ex|]; simpl;
      repeat split; intros; simplify_eq; reflexivity.
Qed.

(** ** Scoring *)

Lemma truthy_true z : truthy z = true ↔ z ≠ 0.
Proof. unfold truthy. destruct (Z.eqb_spec z 0); simpl; split; intros; congruence. Qed.

Lemma truthy_false z : truthy z = false ↔ z = 0.
Proof. unfold truthy. destruct (Z.eqb_spec z 0); simpl; split; intros; congruence. Qed.

(** C1: no score when the Special flag is set, whatever the rest; no score
    when Skip or Kiff is missing; otherwise 0.35*Skip + 0.65*Kiff under the
    Flou flag and 0.5*Skip + 0.5*Kiff without it (in double arithmetic, as
    the code computes it). *)
Theorem computed_score_spec (skip kiff : option Z) (special flou : Z) :
  (special ≠ 0 → computed_score skip kiff special flou = None)
  ∧ (skip = None ∨ kiff = None → computed_score skip kiff special flou = None)
  ∧ (∀ a b, special = 0 → skip = Some a → kiff = Some b →
       (flou ≠ 0 →
          computed_score skip kiff special flou
          = Some (0.35 * float_of_int a + 0.65 * float_of_int b)%float)
       ∧ (flou = 0 →
          computed_score skip kiff special flou
          = Some (0.5 * float_of_int a + 0.5 * float_of_int b)%float)).
Proof.
  unfold computed_score. split; [|split].
  - intros Hs. apply truthy_true in Hs. by rewrite Hs.
  - intros [-> | ->]; destruct (truthy special); [done| |done|].
    + done.
    + by destruct skip.
  - intros a b -> -> ->. simpl. split; intros Hf.
    + apply truthy_true in Hf. by rewrite Hf.
    + by rewrite Hf.
Qed.

(** The scenario of the specification: Skip 8 and Kiff 6. *)
Example computed_score_plain :
  computed_score (Some 8) (Some 6) 0 0 = Some 7%float.
Proof. vm_compute. reflexivity. Qed.

Example computed_score_flou :
  computed_score (Some 8) (Some 6) 0 1 = Some 6.7%float.
Proof. vm_compute. reflexivity. Qed.

Example computed_score_special :
  computed_score (Some 8) (Some 6) 1 1 = None.
Proof. reflexivity. Qed.

(** ** The cursor *)

Lemma py_index_in_range {A} (l : list A) (i : Z) :
  0 ≤ i < Z.of_nat (length l) → ∃ x, py_index l i = Some x ∧ l !! Z.to_nat i = Some x.
Proof.
  intros Hi. unfold py_index.
  destruct (Z.ltb_spec i 0); [lia|].
  destruct (lookup_lt_is_Some_2 l (Z.to_nat i)) as [x Hx]; [lia|].
  exists x. by rewrite Hx.
Qed.

Lemma stored_idx_get_user_idx d u :
  fst (get_user_idx d u) = stored_idx d u
  ∧ stored_idx (snd (get_user_idx d u)) u = stored_idx d u
  ∧ ratings (snd (get_user_idx d u)) = ratings d.
Proof.
  unfold get_user_idx, stored_idx.
  destruct (progress d !! u) as [idx|] eqn:E; simpl.
  - by rewrite E.
  - by rewrite lookup_insert_eq.
Qed.

(** One [/next] on a non-empty catalogue: the item at the stored cursor
    modulo the catalogue size is shown, and that position plus one is stored. *)
Lemma next_genre_step (genres : list string) (d : db) (u : Z) :
  genres ≠ [] →
  let n := Z.of_nat (length genres) in
  let i := stored_idx d u mod n in
  ∃ name d',
    next_genre genres d u = (Some (i, name), d')
    ∧ genres !! Z.to_nat i = Some name
    ∧ stored_idx d' u = i + 1
    ∧ ratings d' = ratings d.
Proof.
  intros Hne n i. unfold next_genre.
  destruct (stored_idx_get_user_idx d u) as (Hidx & _ & Hr).
  destruct (get_user_idx d u) as [idx d1]. simpl in Hidx, Hr. subst idx.
  fold n. assert (0 < n) as Hn.
  { subst n. destruct genres; [done|]. simpl. lia. }
  destruct (Z.eqb_spec n 0); [lia|]. fold i.
  destruct (py_index_in_range genres i) as (name & Hpy & Hl).
  { subst i. apply Z.mod_pos_bound. exact Hn. }
  rewrite Hpy. exists name, (set_user_idx d1 u (i + 1)).
  repeat split; try done.
  unfold stored_idx, set_user_idx. simpl. by rewrite lookup_insert_eq.
Qed.

(** The ids shown by [m] successive [/next]: the cursor advances through the
    catalogue cyclically from wherever it stood. *)
Lemma next_genre_n_ids (genres : list string) (u : Z) (m : nat) :
  genres ≠ [] →
  ∀ d,
    map (fmap fst) (fst (next_genre_n genres d u m))
    = map (λ k, Some ((stored_idx d u + Z.of_nat k) mod Z.of_nat (length genres)))
        (seq 0 m).
Proof.
  intros Hne. induction m as [|m IH]; intros d; [reflexivity|].
  destruct (next_genre_step genres d u Hne) as (name & d' & Hstep & _ & Hidx & _).
  cbn [next_genre_n]. rewrite Hstep.
  specialize (IH d'). destruct (next_genre_n genres d' u m) as [rs d''].
  cbn [fst map fmap option_fmap option_map seq] in *. rewrite IH. f_equal.
  - by rewrite Z.add_0_r.
  - rewrite <- seq_shift, map_map. apply map_ext. intros k.
    rewrite Hidx. f_equal.
    replace (stored_idx d u `mod` Z.of_nat (length genres) + 1 + Z.of_nat k)
      with (stored_idx d u `mod` Z.of_nat (length genres) + (1 + Z.of_nat k))
      by lia.
    rewrite Zplus_mod_idemp_l. f_equal. lia.
Qed.

(** C3, where the stated sequence fails: a catalogue of one item has no
    ids 1 and 2; four [/next] show item 0 four times. *)
Lemma next_genre_cycle_small_catalogue :
  ¬ (∀ (genres : list string) (d : db) (u : Z),
       genres ≠ [] → progress d !! u = None →
       map (fmap fst) (fst (next_genre_n genres d u (length genres + 3)))
       = map (λ k, Some (Z.of_nat k)) (seq 0 (length genres) ++ [0; 1; 2]%nat)).
Proof.
  intros H.
  specialize (H ["Jazz"%string] db_empty 7 ltac:(discriminate) eq_refl).
  vm_compute in H. discriminate H.
Qed.

(** C3 as the code has it: from no stored cursor, [N+3] successive [/next]
    on a catalogue of [N] items show the ids [k mod N] for [k = 0 .. N+2];
    from three items on, that is [0, 1, ..., N-1, 0, 1, 2]. *)
Theorem next_genre_cycles (genres : list string) (d : db) (u : Z) :
  genres ≠ [] → progress d !! u = None →
  let N := length genres in
  map (fmap fst) (fst (next_genre_n genres d u (N + 3)))
  = map (λ k, Some (Z.of_nat k mod Z.of_nat N)) (seq 0 (N + 3))
  ∧ ((3 ≤ N)%nat →
     map (fmap fst) (fst (next_genre_n genres d u (N + 3)))
     = map (λ k, Some (Z.of_nat k)) (seq 0 N ++ [0; 1; 2]%nat)).
Proof.
  intros Hne Hnone N.
  assert (map (fmap fst) (fst (next_genre_n genres d u (N + 3)))
          = map (λ k, Some (Z.of_nat k mod Z.of_nat N)) (seq 0 (N + 3))) as Hids.
  { rewrite next_genre_n_ids by exact Hne.
    unfold stored_idx. rewrite Hnone. reflexivity. }
  split; [exact Hids|].
  intros HN. rewrite Hids, seq_app, !map_app. f_equal.
  - apply map_ext_in. intros k Hk. apply in_seq in Hk.
    f_equal. apply Z.mod_small. lia.
  - cbn [seq map]. rewrite Nat.add_0_l.
    replace (Z.of_nat N `mod` Z.of_nat N) with 0 by (rewrite Z_mod_same_full; done).
    replace (Z.of_nat (S N)) with (1 + 1 * Z.of_nat N) by lia.
    replace (Z.of_nat (S (S N))) with (2 + 1 * Z.of_nat N) by lia.
    rewrite !Z_mod_plus_full, !Z.mod_small by lia. reflexivity.
Qed.

Lemma next_genre_cycles_witness :
  map (fmap fst)
    (fst (next_genre_n ["Jazz"; "Pop"; "Metal"]%string db_empty 7 6))
  = map Some [0; 1; 2; 0; 1; 2].
Proof.
  exact (proj2 (next_genre_cycles ["Jazz"; "Pop"; "Metal"]%string db_empty 7
                  ltac:(discriminate) eq_refl) ltac:(simpl; lia)).
Defined.

(** C4, where it fails: once the stored cursor has reached the catalogue
    size, the next [/next] stores 1.  The store below is the one left by
    three [/next] on a catalogue of three. *)
Lemma next_genre_cursor_wraps :
  ¬ (∀ (genres : list string) (d : db) (u : Z),
       genres ≠ [] →
       stored_idx d u < stored_idx (snd (next_genre genres d u)) u).
Proof.
  intros H.
  specialize (H ["Jazz"; "Pop"; "Metal"]%string
                (snd (next_genre_n ["Jazz"; "Pop"; "Metal"]%string db_empty 7 3))
                7 ltac:(discriminate)).
  vm_compute in H. discriminate H.
Qed.

(** C4 as the code has it: [/next] reduces the cursor it read modulo the
    catalogue size [N] first and stores the reduced position plus one.  The
    stored cursor therefore lies in [1, N]; it grows by one from a cursor in
    [0, N-1] and falls back to 1 from the cursor [N]. *)
Theorem next_genre_stores_reduced (genres : list string) (d : db) (u : Z) :
  genres ≠ [] →
  let N := Z.of_nat (length genres) in
  let c := stored_idx d u in
  let c' := stored_idx (snd (next_genre genres d u)) u in
  c' = c mod N + 1
  ∧ 1 ≤ c' ≤ N
  ∧ (0 ≤ c < N → c' = c + 1)
  ∧ (c = N → c' = 1).
Proof.
  intros Hne N c c'.
  destruct (next_genre_step genres d u Hne) as (name & d' & Hstep & _ & Hidx & _).
  assert (0 < N) as HN by (subst N; destruct genres; [done|simpl; lia]).
  assert (c' = c mod N + 1) as Hc'.
  { subst c'. rewrite Hstep. exact Hidx. }
  pose proof (Z.mod_pos_bound c N HN) as Hb.
  repeat split; try lia.
  - intros Hc. rewrite Hc', Z.mod_small; lia.
  - intros Hc. rewrite Hc', Hc, Z_mod_same_full. lia.
Qed.

Lemma next_genre_stores_reduced_witness :
  stored_idx
    (snd (next_genre ["Jazz"; "Pop"; "Metal"]%string
            (set_user_idx db_empty 7 3) 7)) 7
  = 3 mod 3 + 1.
Proof.
  exact (proj1 (next_genre_stores_reduced ["Jazz"; "Pop"; "Metal"]%string
                  (set_user_idx db_empty 7 3) 7 ltac:(discriminate))).
Defined.

(** ** Pagination *)

Lemma ceil_div_is_ceiling (n k : Z) : 0 < k → is_ceiling n k (ceil_div n k).
Proof.
  intros Hk. unfold is_ceiling, ceil_div.
  pose proof (Z.div_mod (- n) k ltac:(lia)) as Hdm.
  pose proof (Z.mod_pos_bound (- n) k Hk) as Hb.
  nia.
Qed.

Lemma is_ceiling_unique (n k c c' : Z) :
  0 < k → is_ceiling n k c → is_ceiling n k c' → c = c'.
Proof. unfold is_ceiling. intros Hk H H'. nia. Qed.

(** The quotient in double arithmetic, as [math.ceil(n / 15)] computes it,
    agrees with [ceil_div] on every length up to 3000. *)
Lemma ceil_div_float_agrees :
  forallb (λ n, ceil_div_float (Z.of_nat n) 15 =? ceil_div (Z.of_nat n) 15)
    (seq 0 3001) = true.
Proof. vm_compute. reflexivity. Qed.

(** A page within range starts inside the sequence (at its end only when the
    sequence is empty). *)
Lemma page_start_le (n k p : Z) :
  1 ≤ k → 0 ≤ n → 0 ≤ p ≤ Z.max 1 (ceil_div n k) - 1 →
  0 ≤ p * k ≤ n ∧ (0 < n → p * k < n).
Proof.
  intros Hk Hn Hp.
  pose proof (ceil_div_is_ceiling n k ltac:(lia)) as Hc. unfold is_ceiling in Hc.
  destruct (Z.max_spec 1 (ceil_div n k)) as [[? Hm]|[? Hm]]; rewrite Hm in Hp; nia.
Qed.

Lemma py_slice_inside {A} (l : list A) (start k : Z) :
  1 ≤ k → 0 ≤ start ≤ Z.of_nat (length l) →
  py_slice l start (start + k)
  = take (Z.to_nat (Z.min (start + k) (Z.of_nat (length l)) - start))
      (drop (Z.to_nat start) l).
Proof.
  intros Hk Hs. unfold py_slice, clamp_bound.
  destruct (Z.ltb_spec start 0); [lia|].
  destruct (Z.ltb_spec (start + k) 0); [lia|].
  rewrite (Z.min_l start) by lia. reflexivity.
Qed.

(** The elements of a page are those at the positions from [start] up to,
    and without, [min (start + k) n]. *)
Lemma py_slice_page {A} (l : list A) (start k : Z) :
  1 ≤ k → 0 ≤ start ≤ Z.of_nat (length l) →
  length (py_slice l start (start + k))
  = Z.to_nat (Z.min (start + k) (Z.of_nat (length l)) - start)
  ∧ ∀ j : nat,
      (j < length (py_slice l start (start + k)))%nat →
      py_slice l start (start + k) !! j = l !! (Z.to_nat start + j)%nat.
Proof.
  intros Hk Hs. rewrite py_slice_inside by assumption.
  assert (length (take (Z.to_nat (Z.min (start + k) (Z.of_nat (length l)) - start))
                    (drop (Z.to_nat start) l))
          = Z.to_nat (Z.min (start + k) (Z.of_nat (length l)) - start)) as Hlen.
  { rewrite length_take, length_drop. lia. }
  split; [exact Hlen|].
  intros j Hj. rewrite Hlen in Hj.
  rewrite lookup_take_lt by exact Hj. apply lookup_drop.
Qed.

(** ** Sorting *)

Section SortingFacts.
Context {A K : Type} (key : A → K) (lt : K → K → bool).

Lemma insert_by_perm (x : A) (l : list A) :
  Permutation (insert_by key lt x l) (x :: l).
Proof.
  induction l as [|y l IH]; simpl; [reflexivity|].
  destruct (lt (key y) (key x)); [|reflexivity].
  rewrite IH. apply perm_swap.
Qed.

Lemma sort_by_perm (l : list A) : Permutation (sort_by key lt l) l.
Proof.
  induction l as [|x l IH]; simpl; [reflexivity|].
  rewrite insert_by_perm. by constructor.
Qed.

Lemma sorted_perm (l : list A) (reverse : bool) :
  Permutation (sorted key lt l reverse) l.
Proof.
  unfold sorted. destruct reverse; [|apply sort_by_perm].
  rewrite <- Permutation_rev, sort_by_perm. symmetry. apply Permutation_rev.
Qed.

Lemma length_sorted (l : list A) (reverse : bool) :
  length (sorted key lt l reverse) = length l.
Proof. apply Permutation_length, sorted_perm. Qed.

(** A class of elements that [lt] never separates: an element smaller than
    a member is not a member. *)
Variable P : A → bool.
Hypothesis P_lt : ∀ x y, lt (key y) (key x) = true → P x = true → P y = false.

Lemma filter_insert_by (x : A) (l : list A) :
  List.filter P (insert_by key lt x l) = List.filter P (x :: l).
Proof.
  induction l as [|y l IH]; [reflexivity|].
  cbn [insert_by]. destruct (lt (key y) (key x)) eqn:Hlt; [|reflexivity].
  cbn [List.filter] in *. rewrite IH.
  destruct (P x) eqn:Hx; [|reflexivity].
  by rewrite (P_lt x y Hlt Hx).
Qed.

Lemma filter_sort_by (l : list A) :
  List.filter P (sort_by key lt l) = List.filter P l.
Proof.
  induction l as [|x l IH]; [reflexivity|].
  cbn [sort_by]. rewrite filter_insert_by. cbn [List.filter]. by rewrite IH.
Qed.

(** The members of the class come out in the order they went in, in both
    directions. *)
Lemma filter_sorted (l : list A) (reverse : bool) :
  List.filter P (sorted key lt l reverse) = List.filter P l.
Proof.
  unfold sorted. destruct reverse; [|apply filter_sort_by].
  rewrite filter_rev, filter_sort_by, filter_rev. apply rev_involutive.
Qed.

(** Ascending output: no element is smaller than the one before it. *)
Hypothesis lt_asym : ∀ a b, lt a b = true → lt b a = false.

Lemma insert_by_sorted (x : A) (l : list A) :
  Sorted (λ a b, lt (key b) (key a) = false) l →
  Sorted (λ a b, lt (key b) (key a) = false) (insert_by key lt x l).
Proof.
  induction 1 as [|y l Hs IH Hhd]; simpl; [by repeat constructor|].
  destruct (lt (key y) (key x)) eqn:Hlt.
  - constructor; [exact IH|].
    destruct Hhd as [|z l Hz]; simpl.
    + constructor. by apply lt_asym.
    + destruct (lt (key z) (key x)); constructor; [exact Hz|by apply lt_asym].
  - constructor; [by constructor|]. by constructor.
Qed.

Lemma sort_by_sorted (l : list A) :
  Sorted (λ a b, lt (key b) (key a) = false) (sort_by key lt l).
Proof.
  induction l as [|x l IH]; simpl; [constructor|]. by apply insert_by_sorted.
Qed.
End SortingFacts.

(** Comparison of doubles. *)
Lemma SFcompare_finite_Eq s1 m1 e1 s2 m2 e2 :
  SFcompare (S754_finite s1 m1 e1) (S754_finite s2 m2 e2) = Some Eq →
  s1 = s2 ∧ m1 = m2 ∧ e1 = e2.
Proof.
  simpl. destruct s1, s2; try discriminate;
    destruct (Z.compare_spec e1 e2) as [He|He|He]; try discriminate;
    intros H; injection H as H.
  - destruct (Pos.compare_cont Eq m1 m2) eqn:E; try discriminate.
    apply Pcompare_Eq_eq in E. auto.
  - apply Pcompare_Eq_eq in H. auto.
Qed.

Lemma SFcompare_finite_refl s m e :
  SFcompare (S754_finite s m e) (S754_finite s m e) = Some Eq.
Proof. simpl. rewrite Z.compare_refl, Pcompare_refl. by destruct s. Qed.

Lemma SFcompare_Eq_Eq a b s :
  SFcompare a s = Some Eq → SFcompare b s = Some Eq → SFcompare a b = Some Eq.
Proof.
  destruct a as [sa|sa| |sa ma ea], s as [ss|ss| |ss ms es];
    try (simpl; discriminate);
    try (simpl; destruct sa; discriminate);
    try (simpl; destruct ss; discriminate);
  destruct b as [sb|sb| |sb mb eb];
    try (simpl; discriminate);
    try (simpl; destruct sb; discriminate);
    try (simpl; destruct ss; discriminate).
  - reflexivity.
  - simpl. destruct sa, ss, sb; try discriminate; reflexivity.
  - intros Ha Hb.
    apply SFcompare_finite_Eq in Ha as (-> & -> & ->).
    apply SFcompare_finite_Eq in Hb as (-> & -> & ->).
    apply SFcompare_finite_refl.
Qed.

(** A double smaller than one equal to [s] is not equal to [s]. *)
Lemma float_ltb_eqb (a b s : float) :
  (a <? b)%float = true → (b =? s)%float = true → (a =? s)%float = false.
Proof.
  rewrite FloatAxioms.ltb_spec, !FloatAxioms.eqb_spec. unfold SFltb, SFeqb.
  destruct (SFcompare (Prim2SF b) (Prim2SF s)) as [[| |]|] eqn:Hb; try discriminate.
  destruct (SFcompare (Prim2SF a) (Prim2SF s)) as [[| |]|] eqn:Ha; try reflexivity.
  rewrite (SFcompare_Eq_Eq _ _ _ Ha Hb). discriminate.
Qed.

Lemma SFcompare_Lt_Gt a b : SFcompare a b = Some Lt → SFcompare b a = Some Gt.
Proof.
  destruct a as [sa|sa| |sa ma ea], b as [sb|sb| |sb mb eb]; simpl;
    try discriminate;
    try (destruct sa; (discriminate || reflexivity));
    try (destruct sb; (discriminate || reflexivity)).
  - destruct sa, sb; (discriminate || reflexivity).
  - rewrite (Z.compare_antisym ea eb), (ZC4 mb ma).
    destruct sa, sb, (ea ?= eb), (Pos.compare_cont Eq ma mb); simpl;
      (discriminate || reflexivity).
Qed.

Lemma float_ltb_asym (a b : float) :
  (a <? b)%float = true → (b <? a)%float = false.
Proof.
  rewrite !FloatAxioms.ltb_spec. unfold SFltb.
  destruct (SFcompare (Prim2SF a) (Prim2SF b)) as [[| |]|] eqn:Hab; try discriminate.
  by rewrite (SFcompare_Lt_Gt _ _ Hab).
Qed.

(** Reversing a list sorted for a relation sorts it for the converse. *)
Lemma Sorted_snoc {A} (R : A → A → Prop) (l : list A) (x : A) :
  Sorted R l → (∀ y, last l = Some y → R y x) → Sorted R (l ++ [x]).
Proof.
  induction 1 as [|y l Hs IH Hhd]; intros Hlast; simpl.
  - by repeat constructor.
  - constructor.
    + apply IH. intros z Hz. apply Hlast.
      destruct l; [discriminate Hz|exact Hz].
    + destruct Hhd as [|z l Hz]; simpl; constructor; [|exact Hz].
      by apply Hlast.
Qed.

Lemma Sorted_rev {A} (R : A → A → Prop) (l : list A) :
  Sorted R l → Sorted (flip R) (rev l).
Proof.
  induction 1 as [|y l Hs IH Hhd]; simpl; [constructor|].
  apply Sorted_snoc; [exact IH|].
  intros z Hz. destruct Hhd as [|w l Hw]; simpl in Hz; [discriminate Hz|].
  rewrite last_snoc in Hz. injection Hz as <-. exact Hw.
Qed.

(** The ranked output is ordered by score: descending puts no item before
    one with a greater score, ascending none before one with a smaller. *)
Lemma sorted_items_ordered (v : RankView.t) :
  match RankView.order v with
  | Desc =>
      Sorted (λ a b, (RankView.score a <? RankView.score b)%float = false)
        (RankView._sorted_items v)
  | Asc =>
      Sorted (λ a b, (RankView.score b <? RankView.score a)%float = false)
        (RankView._sorted_items v)
  end.
Proof.
  unfold RankView._sorted_items, sorted. destruct (RankView.order v).
  - apply (Sorted_rev (λ a b, (RankView.score b <? RankView.score a)%float = false)).
    apply sort_by_sorted, float_ltb_asym.
  - apply sort_by_sorted, float_ltb_asym.
Qed.

(** The items that [rank] hands to the view are the scored rows, in the order
    in which they were fetched. *)
Lemma rank_items_fetch_order (genres : list string) (rows : list (Z * rating_row))
    (items : list RankView.item) :
  rank_items genres rows = Some items →
  map (λ x, (RankView.genre_id x, Some (RankView.score x))) items
  = map (λ row, (fst row, row_score (snd row)))
      (List.filter (λ row, is_scored (snd row)) rows).
Proof.
  unfold is_scored, row_score. revert items.
  induction rows as [|[gid r] rows IH]; intros items H; simpl in H |- *.
  - by injection H as <-.
  - destruct (computed_score _ _ _ _) as [sc|] eqn:Hsc; [|by apply IH].
    destruct (py_index genres gid); [|discriminate H].
    destruct (rank_items genres rows) as [items'|]; [|discriminate H].
    injection H as <-. simpl. rewrite Hsc. f_equal. by apply IH.
Qed.

Lemma rank_items_with_score (genres : list string) (rows : list (Z * rating_row))
    (items : list RankView.item) (s : float) :
  rank_items genres rows = Some items →
  map RankView.genre_id (List.filter (λ x, RankView.score x =? s)%float items)
  = map fst (List.filter (λ row, scored_as s (snd row)) rows).
Proof.
  unfold scored_as, row_score. revert items.
  induction rows as [|[gid r] rows IH]; intros items H; simpl in H |- *.
  - by injection H as <-.
  - destruct (computed_score _ _ _ _) as [sc|] eqn:Hsc; [|by apply IH].
    destruct (py_index genres gid); [|discriminate H].
    destruct (rank_items genres rows) as [items'|]; [|discriminate H].
    injection H as <-. cbn [List.filter RankView.score fst].
    destruct (sc =? s)%float; simpl; [f_equal|]; by apply IH.
Qed.

(** C8: the ranking is stable in both directions.  For every score [s], the
    items whose score equals [s] appear in the ranked output in exactly the
    order in which they appear among the items given to the view, which is a
    rearrangement of them; and when the items are those that [rank] built
    from the fetched rows, that order is the fetch order of the rows. *)
Theorem sorted_items_stable (v : RankView.t) (s : float) :
  List.filter (λ x, RankView.score x =? s)%float (RankView._sorted_items v)
  = List.filter (λ x, RankView.score x =? s)%float (RankView.items v)
  ∧ Permutation (RankView._sorted_items v) (RankView.items v)
  ∧ ∀ genres rows,
      rank_items genres rows = Some (RankView.items v) →
      map RankView.genre_id
        (List.filter (λ x, RankView.score x =? s)%float (RankView._sorted_items v))
      = map fst (List.filter (λ row, scored_as s (snd row)) rows).
Proof.
  assert (List.filter (λ x, RankView.score x =? s)%float (RankView._sorted_items v)
          = List.filter (λ x, RankView.score x =? s)%float (RankView.items v))
    as Hstable.
  { unfold RankView._sorted_items. apply filter_sorted.
    intros x y Hlt Hx. exact (float_ltb_eqb _ _ _ Hlt Hx). }
  split; [exact Hstable|]. split.
  - apply sorted_perm.
  - intros genres rows Hrows. rewrite Hstable.
    by apply (rank_items_with_score genres).
Qed.

Example sorted_items_desc :
  map RankView.genre_id
    (RankView._sorted_items
       (RankView.init 7 [(7%float, 0, "Jazz"%string); (6.7%float, 1, "Pop"%string); (7%float, 2, "Metal"%string)]))
  = [0; 2; 1].
Proof. vm_compute. reflexivity. Qed.

Example sorted_items_asc :
  map RankView.genre_id
    (RankView._sorted_items
       (RankView.select_order
          (RankView.init 7 [(7%float, 0, "Jazz"%string); (6.7%float, 1, "Pop"%string); (7%float, 2, "Metal"%string)])
          Asc))
  = [1; 0; 2].
Proof. vm_compute. reflexivity. Qed.

(** ** The two paginated views *)

(** C6: with a page size of at least 1, the number of pages is the larger of
    1 and the ceiling of [n / k], hence 1 for an empty sequence; "previous"
    stays on page 0 and otherwise goes back one page; "next" stays on the
    last page and otherwise goes forward one page.  The search view and the
    rank view behave alike. *)
Theorem pagination_bounds (sv : SearchResultsView.t) (rv : RankView.t) :
  1 ≤ SearchResultsView.page_size sv → 1 ≤ RankView.page_size rv →
  ((∃ c, is_ceiling (Z.of_nat (length (SearchResultsView.results sv)))
           (SearchResultsView.page_size sv) c
         ∧ SearchResultsView._total_pages sv = Z.max 1 c)
   ∧ (SearchResultsView.results sv = [] → SearchResultsView._total_pages sv = 1)
   ∧ (SearchResultsView.page sv = 0 →
      SearchResultsView.page (SearchResultsView.prev_button sv) = 0)
   ∧ (0 < SearchResultsView.page sv →
      SearchResultsView.page (SearchResultsView.prev_button sv)
      = SearchResultsView.page sv - 1)
   ∧ (SearchResultsView.page sv = SearchResultsView._total_pages sv - 1 →
      SearchResultsView.page (SearchResultsView.next_button sv)
      = SearchResultsView._total_pages sv - 1)
   ∧ (SearchResultsView.page sv < SearchResultsView._total_pages sv - 1 →
      SearchResultsView.page (SearchResultsView.next_button sv)
      = SearchResultsView.page sv + 1))
  ∧ ((∃ c, is_ceiling (Z.of_nat (length (RankView.items rv)))
             (RankView.page_size rv) c
           ∧ RankView._total_pages rv = Z.max 1 c)
     ∧ (RankView.items rv = [] → RankView._total_pages rv = 1)
     ∧ (RankView.page rv = 0 → RankView.page (RankView.prev_button rv) = 0)
     ∧ (0 < RankView.page rv →
        RankView.page (RankView.prev_button rv) = RankView.page rv - 1)
     ∧ (RankView.page rv = RankView._total_pages rv - 1 →
        RankView.page (RankView.next_button rv) = RankView._total_pages rv - 1)
     ∧ (RankView.page rv < RankView._total_pages rv - 1 →
        RankView.page (RankView.next_button rv) = RankView.page rv + 1)).
Proof.
  intros Hs Hr. split.
  - destruct sv as [u res q k p].
    unfold SearchResultsView.prev_button, SearchResultsView.next_button,
      SearchResultsView.set_page, SearchResultsView._total_pages.
    cbn [SearchResultsView.page SearchResultsView.results
         SearchResultsView.page_size] in *.
    repeat split; try lia.
    + eexists. split; [apply ceil_div_is_ceiling; lia|reflexivity].
    + intros ->. reflexivity.
  - destruct rv as [u its o p k].
    unfold RankView.prev_button, RankView.next_button, RankView.set_page,
      RankView._total_pages.
    cbn [RankView.page RankView.items RankView.page_size] in *.
    repeat split; try lia.
    + eexists. split; [apply ceil_div_is_ceiling; lia|reflexivity].
    + intros ->. reflexivity.
Qed.

Lemma pagination_bounds_witness :
  SearchResultsView._total_pages (SearchResultsView.init 7 [] "az" 15) = 1
  ∧ RankView._total_pages (RankView.init 7 []) = 1.
Proof.
  pose proof (pagination_bounds (SearchResultsView.init 7 [] "az" 15)
                (RankView.init 7 []) ltac:(simpl; lia) ltac:(simpl; lia))
    as [(_ & Hs & _) (_ & Hr & _)].
  split; [exact (Hs eq_refl)|exact (Hr eq_refl)].
Defined.

(** C7, where it fails: on a last page that is not full the returned end
    offset is [start + k], past the end of the sequence.  One search result,
    pages of 15: the end offset is 15, not 1. *)
Lemma page_slice_end_not_clamped :
  ¬ (∀ v : SearchResultsView.t,
       1 ≤ SearchResultsView.page_size v →
       0 ≤ SearchResultsView.page v ≤ SearchResultsView._total_pages v - 1 →
       snd (SearchResultsView._page_slice v)
       = Z.min (SearchResultsView.page v * SearchResultsView.page_size v
                + SearchResultsView.page_size v)
           (Z.of_nat (length (SearchResultsView.results v)))).
Proof.
  intros H.
  specialize (H (SearchResultsView.init 7 [(0, "Jazz"%string)] "az" 15)
                ltac:(simpl; lia) ltac:(vm_compute; split; discriminate)).
  vm_compute in H. discriminate H.
Qed.

(** C7 as the code has it: for a page size of at least 1 and a page in
    range, [_page_slice] returns [start = page * k], the unclamped
    [end = start + k], and the elements at the positions from [start] up to
    and without [min (start + k) n] — never more than the sequence holds.
    The rank view slices its sorted items and also returns their number. *)
Theorem page_slice_spec (sv : SearchResultsView.t) (rv : RankView.t) :
  1 ≤ SearchResultsView.page_size sv →
  0 ≤ SearchResultsView.page sv ≤ SearchResultsView._total_pages sv - 1 →
  1 ≤ RankView.page_size rv →
  0 ≤ RankView.page rv ≤ RankView._total_pages rv - 1 →
  (∃ sub start,
     SearchResultsView._page_slice sv
     = (sub, start, start + SearchResultsView.page_size sv)
     ∧ start = SearchResultsView.page sv * SearchResultsView.page_size sv
     ∧ 0 ≤ start ≤ Z.of_nat (length (SearchResultsView.results sv))
     ∧ Z.of_nat (length sub)
       = Z.min (start + SearchResultsView.page_size sv)
           (Z.of_nat (length (SearchResultsView.results sv))) - start
     ∧ ∀ j : nat, (j < length sub)%nat →
         sub !! j = SearchResultsView.results sv !! (Z.to_nat start + j)%nat)
  ∧ (∃ sub start,
       RankView._page_slice rv
       = (sub, start, start + RankView.page_size rv,
          Z.of_nat (length (RankView.items rv)))
       ∧ start = RankView.page rv * RankView.page_size rv
       ∧ 0 ≤ start ≤ Z.of_nat (length (RankView.items rv))
       ∧ Z.of_nat (length sub)
         = Z.min (start + RankView.page_size rv)
             (Z.of_nat (length (RankView.items rv))) - start
       ∧ ∀ j : nat, (j < length sub)%nat →
           sub !! j = RankView._sorted_items rv !! (Z.to_nat start + j)%nat).
Proof.
  intros Hks Hps Hkr Hpr. split.
  - unfold SearchResultsView._total_pages in Hps.
    destruct (page_start_le _ _ _ Hks (Nat2Z.is_nonneg _) Hps) as [Hstart _].
    destruct (py_slice_page (SearchResultsView.results sv) _ _ Hks Hstart)
      as [Hlen Hnth].
    eexists _, _. split; [reflexivity|].
    split; [reflexivity|]. split; [exact Hstart|].
    split; [rewrite Hlen; lia|exact Hnth].
  - unfold RankView._total_pages in Hpr.
    assert (length (RankView._sorted_items rv) = length (RankView.items rv)) as Hl
      by apply length_sorted.
    destruct (page_start_le _ _ _ Hkr (Nat2Z.is_nonneg _) Hpr) as [Hstart _].
    rewrite <- Hl in Hstart.
    destruct (py_slice_page (RankView._sorted_items rv) _ _ Hkr Hstart)
      as [Hlen Hnth].
    eexists _, _. split.
    { unfold RankView._page_slice. rewrite Hl. reflexivity. }
    rewrite <- Hl.
    split; [reflexivity|]. split; [exact Hstart|].
    split; [rewrite Hlen; lia|exact Hnth].
Qed.

Lemma page_slice_spec_witness :
  ∃ sub start,
    SearchResultsView._page_slice
      (SearchResultsView.init 7 [(0, "Jazz"%string)] "az" 15)
    = (sub, start, start + 15)
    ∧ start = 0 * 15
    ∧ 0 ≤ start ≤ 1
    ∧ Z.of_nat (length sub) = Z.min (start + 15) 1 - start
    ∧ ∀ j : nat, (j < length sub)%nat →
        sub !! j = [(0, "Jazz"%string)] !! (Z.to_nat start + j)%nat.
Proof.
  exact (proj1 (page_slice_spec
                  (SearchResultsView.init 7 [(0, "Jazz"%string)] "az" 15)
                  (RankView.init 7 [(7%float, 1, "Pop"%string)])
                  ltac:(simpl; lia) ltac:(vm_compute; split; discriminate)
                  ltac:(simpl; lia) ltac:(vm_compute; split; discriminate))).
Defined.

(** ** Strings *)

Module PyStrFacts.
Import PyStr.

Lemma startswith_spec (q s : string) :
  startswith q s = true ↔ ∃ post, s = q +:+ post.
Proof.
  revert s. induction q as [|a q IH]; intros s; simpl.
  - split; [intros _; by exists s|done].
  - destruct s as [|b s]; simpl.
    + split; [done|intros [post H]; discriminate H].
    + rewrite andb_true_iff, IH. split.
      * intros [Hab [post ->]]. apply Ascii.eqb_eq in Hab as ->. by exists post.
      * intros [post H]. injection H as -> ->. split; [apply Ascii.eqb_refl|by exists post].
Qed.

(** [contains q s] decides whether [q] occurs in [s]. *)
Lemma contains_spec (q s : string) :
  contains q s = true ↔ ∃ pre post, s = pre +:+ q +:+ post.
Proof.
  induction s as [|b s IH].
  - simpl. rewrite orb_false_r, startswith_spec. split.
    + intros [post H]. by exists EmptyString, post.
    + intros (pre & post & H). destruct pre; [by exists post|discriminate H].
  - cbn [contains]. rewrite orb_true_iff, startswith_spec, IH. split.
    + intros [[post H]|(pre & post & H)].
      * by exists EmptyString, post.
      * exists (String b pre), post. simpl. by rewrite H.
    + intros (pre & post & H). destruct pre as [|c pre]; simpl in H.
      * left. by exists post.
      * right. injection H as -> ->. by exists pre, post.
Qed.

Lemma lower_app (s t : string) : lower (s +:+ t) = lower s +:+ lower t.
Proof. induction s as [|c s IH]; simpl; [done|by rewrite IH]. Qed.

Lemma lower_empty (s : string) : lower s = EmptyString ↔ s = EmptyString.
Proof. destruct s; simpl; split; intros; congruence. Qed.

Lemma map_chars_app (f : ascii → ascii) (s t : string) :
  map_chars f (s +:+ t) = map_chars f s +:+ map_chars f t.
Proof. induction s as [|c s IH]; simpl; [done|by rewrite IH]. Qed.

(** A split of the lowered name comes from a split of the name. *)
Lemma map_chars_split (f : ascii → ascii) (g a b : string) :
  map_chars f g = a +:+ b →
  ∃ g1 g2, g = g1 +:+ g2 ∧ map_chars f g1 = a ∧ map_chars f g2 = b.
Proof.
  revert g. induction a as [|c a IH]; intros g H; simpl in H.
  - by exists EmptyString, g.
  - destruct g as [|d g]; [discriminate H|]. simpl in H. injection H as Hc H.
    destruct (IH g H) as (g1 & g2 & -> & <- & <-).
    exists (String d g1), g2. simpl. by rewrite Hc.
Qed.

Lemma lower_map_chars (s : string) : lower s = map_chars lower_char s.
Proof. induction s as [|c s IH]; simpl; [done|by rewrite IH]. Qed.

(** Where [lower] works letter by letter, the lowered name contains the
    lowered query exactly when some stretch of the name equals the query up
    to letter case. *)
Lemma contains_letterwise (lower : string → string) (f : ascii → ascii)
    (P : string → Prop) (q g : string) :
  (∀ a b, P (a +:+ b) → P a ∧ P b) →
  (∀ s, P s → lower s = map_chars f s) →
  P g → P q →
  (∃ pre post, lower g = pre +:+ lower q +:+ post) ↔ ci_substring lower q g.
Proof.
  intros Hsplit Hlow Hg Hq. unfold ci_substring. split.
  - intros (a & b & H). rewrite (Hlow g Hg) in H.
    apply map_chars_split in H as (pre & rest & -> & <- & H).
    apply Hsplit in Hg as [_ Hrest].
    apply map_chars_split in H as (mid & post & -> & Hmid & <-).
    apply Hsplit in Hrest as [Hm _].
    exists pre, mid, post. split; [done|]. by rewrite (Hlow mid Hm).
  - intros (pre & mid & post & -> & Hmid).
    pose proof (Hsplit _ _ Hg) as [Hpre Hrest].
    pose proof (Hsplit _ _ Hrest) as [Hm Hpost].
    exists (map_chars f pre), (map_chars f post).
    rewrite (Hlow _ Hg), !map_chars_app, <- Hmid. by rewrite (Hlow mid Hm).
Qed.

End PyStrFacts.

(** [strip] removes white space at both ends and nothing else. *)
Module PyStripFacts.
Import PyStr.
#[local] Arguments String.append : simpl nomatch.

Lemma lstrip_spec (s : string) :
  ∃ pre, s = pre +:+ lstrip s ∧ all_space pre = true
         ∧ ∀ c r, lstrip s = String c r → isspace c = false.
Proof.
  induction s as [|c s (pre & Hs & Hpre & Hhd)]; simpl.
  - by exists EmptyString.
  - destruct (isspace c) eqn:Hc.
    + exists (String c pre). simpl. rewrite Hc, Hpre.
      split; [congruence|done].
    + exists EmptyString. repeat split. intros c' r H. by injection H as <- _.
Qed.

Lemma rstrip_head (s : string) (c : ascii) (r : string) :
  rstrip s = String c r → ∃ r', s = String c r'.
Proof.
  destruct s as [|d s]; simpl; [done|].
  destruct (rstrip s); [destruct (isspace d)|]; intros H; simplify_eq; eauto.
Qed.

Lemma rstrip_spec (s : string) :
  ∃ post, s = rstrip s +:+ post ∧ all_space post = true
          ∧ ∀ r c, rstrip s = r +:+ String c EmptyString → isspace c = false.
Proof.
  induction s as [|c s (post & Hs & Hpost & Hlast)]; simpl.
  - exists EmptyString. repeat split. intros [|? ?] ? H; discriminate H.
  - destruct (rstrip s) as [|d t] eqn:Ht.
    + simpl in Hs. subst post. destruct (isspace c) eqn:Hc.
      * exists (String c s). simpl. rewrite Hc, Hpost. repeat split.
        intros [|? ?] ? H; discriminate H.
      * exists s. repeat split; [done|].
        intros [|e r] c' H; simpl in H.
        { by injection H as <-. }
        injection H as _ H. destruct r; discriminate H.
    + exists post. simpl. split; [by rewrite Hs at 1|]. split; [done|].
      intros [|e r] c' H; [discriminate H|].
      injection H as -> H. by apply (Hlast r).
Qed.

Lemma strip_spec (s : string) :
  ∃ pre post,
    s = pre +:+ strip s +:+ post
    ∧ all_space pre = true ∧ all_space post = true
    ∧ (∀ c r, strip s = String c r → isspace c = false)
    ∧ (∀ r c, strip s = r +:+ String c EmptyString → isspace c = false).
Proof.
  unfold strip.
  destruct (lstrip_spec s) as (pre & Hs & Hpre & Hhd).
  destruct (rstrip_spec (lstrip s)) as (post & Ht & Hpost & Hlast).
  exists pre, post. repeat split; try done.
  - by rewrite <- Ht.
  - intros c r H. apply rstrip_head in H as [r' H]. by apply (Hhd c r').
Qed.

End PyStripFacts.

(** ** [/search] *)

Lemma in_enumerate_from {A} (l : list A) (k i : Z) (x : A) :
  In (i, x) (enumerate_from k l) ↔ k ≤ i ∧ l !! Z.to_nat (i - k) = Some x.
Proof.
  revert k. induction l as [|y l IH]; intros k; simpl.
  - split; [done|intros [_ H]; discriminate H].
  - rewrite IH. split.
    + intros [H|[Hk Hl]].
      * injection H as -> ->. split; [lia|]. by rewrite Z.sub_diag.
      * split; [lia|].
        replace (Z.to_nat (i - k)) with (S (Z.to_nat (i - (k + 1)))) by lia.
        exact Hl.
    + intros [Hk Hl]. destruct (Z.eq_dec i k) as [->|Hne].
      * left. rewrite Z.sub_diag in Hl. simpl in Hl. congruence.
      * right. split; [lia|].
        replace (Z.to_nat (i - k)) with (S (Z.to_nat (i - (k + 1)))) in Hl by lia.
        exact Hl.
Qed.

Lemma in_enumerate {A} (l : list A) (i : Z) (x : A) :
  In (i, x) (enumerate l) ↔ 0 ≤ i ∧ l !! Z.to_nat i = Some x.
Proof. unfold enumerate. by rewrite in_enumerate_from, Z.sub_0_r. Qed.

(** Filtering an enumeration keeps the ids in ascending order. *)
Lemma filter_enumerate_from_sorted {A} (f : Z * A → bool) (l : list A) (k : Z) :
  StronglySorted Z.lt (map fst (List.filter f (enumerate_from k l)))
  ∧ Forall (λ i, k ≤ i) (map fst (List.filter f (enumerate_from k l))).
Proof.
  revert k. induction l as [|y l IH]; intros k; simpl.
  - split; constructor.
  - destruct (IH (k + 1)) as [Hs Hf].
    assert (Forall (λ i, k < i) (map fst (List.filter f (enumerate_from (k + 1) l))))
      as Hlt by (eapply Forall_impl; [exact Hf|]; simpl; intros; lia).
    destruct (f (k, y)); simpl.
    + split; constructor; try done; try lia.
      eapply Forall_impl; [exact Hlt|]. simpl; intros; lia.
    + split; [exact Hs|]. eapply Forall_impl; [exact Hlt|]. simpl; intros; lia.
Qed.

(** For every lowering and trimming: the results are the catalogue entries
    whose lowered name contains the lowered, trimmed query. *)
Lemma in_search_matches (lower : string → string) (genres : list string)
    (q : string) (i : Z) (g : string) :
  In (i, g) (search_matches lower genres q) ↔
  0 ≤ i ∧ genres !! Z.to_nat i = Some g
  ∧ ∃ pre post, lower g = pre +:+ q +:+ post.
Proof.
  unfold search_matches. rewrite filter_In, in_enumerate. cbn [snd].
  rewrite PyStrFacts.contains_spec. tauto.
Qed.

(** Whatever [str.lower] and [str.strip] do elsewhere, once they leave the
    query [Σ] a small sigma and end the lowered name [ΟΔΟΣ] in a final
    sigma, the search for [Σ] does not find the name. *)
Lemma search_misses_final_sigma (lower strip : string → string) (u : Z) :
  strip "Σ" = "Σ"%string → lower "Σ" = "σ"%string → lower "ΟΔΟΣ" = "οδος"%string →
  search_genres lower strip ["ΟΔΟΣ"%string] u "Σ" = SearchNoMatch.
Proof.
  intros Hs Hq Hg. unfold search_genres, search_matches. rewrite Hs, Hq.
  cbn [PyStr.is_empty enumerate enumerate_from List.filter snd]. by rewrite Hg.
Qed.

(** C5, where it fails: [str.lower] lowers a string as a whole, and a capital
    sigma that ends a word becomes the final sigma.  The name [ΟΔΟΣ]
    contains the query [Σ] as it stands, yet the lowered name [οδος] does not
    contain the lowered query [σ], and the search answers that nothing
    matches. *)
Lemma search_final_sigma :
  ¬ (∀ (genres : list string) (u : Z) (query : string),
       PyStr.strip query ≠ EmptyString →
       ∃ l, search_results
              (search_genres lower_final_sigma PyStr.strip genres u query)
            = Some l
            ∧ ∀ i g, In (i, g) l ↔
                0 ≤ i ∧ genres !! Z.to_nat i = Some g
                ∧ ci_substring lower_final_sigma (PyStr.strip query) g).
Proof.
  intros H.
  destruct (H ["ΟΔΟΣ"%string] 7 "Σ"%string ltac:(by vm_compute))
    as (l & Hl & Hmem).
  rewrite (search_misses_final_sigma lower_final_sigma PyStr.strip 7
             eq_refl eq_refl eq_refl) in Hl.
  injection Hl as <-.
  apply (Hmem 0 "ΟΔΟΣ"%string). split; [done|]. split; [done|].
  by exists "ΟΔΟ"%string, "Σ"%string, EmptyString.
Qed.

(** C5 as the code has it: the query is trimmed and lowered, and rejected
    when nothing is left; otherwise the answer is exactly the catalogue
    entries [(id, name)] whose lowered name contains the lowered query, over
    the whole catalogue, by ascending id.  As lowering never empties a
    string, the rejected queries are those that are empty once trimmed; and
    on text that [str.lower] lowers letter by letter, as it does ASCII text,
    an entry matches exactly when its name contains the trimmed query up to
    letter case. *)
Theorem search_genres_spec (lower strip : string → string)
    (genres : list string) (user_id : Z) (query : string) :
  let q := lower (strip query) in
  (q = EmptyString →
   search_genres lower strip genres user_id query = SearchRejected)
  ∧ (q ≠ EmptyString →
     ∃ l, search_results (search_genres lower strip genres user_id query)
          = Some l
          ∧ (∀ i g, In (i, g) l ↔
               0 ≤ i ∧ genres !! Z.to_nat i = Some g
               ∧ ∃ pre post, lower g = pre +:+ q +:+ post)
          ∧ StronglySorted Z.lt (map fst l))
  ∧ ((∀ s, lower s = EmptyString ↔ s = EmptyString) →
     (strip query = EmptyString ↔
      search_genres lower strip genres user_id query = SearchRejected))
  ∧ (∀ (f : ascii → ascii) (P : string → Prop) (g : string),
       (∀ a b, P (a +:+ b) → P a ∧ P b) →
       (∀ s, P s → lower s = map_chars f s) →
       P g → P (strip query) →
       ((∃ pre post, lower g = pre +:+ q +:+ post)
        ↔ ci_substring lower (strip query) g)).
Proof.
  intros q.
  assert (q = EmptyString →
          search_genres lower strip genres user_id query = SearchRejected)
    as Hrej.
  { unfold search_genres. fold q. by intros ->. }
  assert (q ≠ EmptyString →
          search_results (search_genres lower strip genres user_id query)
          = Some (search_matches lower genres q)) as Hres.
  { intros Hne. unfold search_genres. fold q.
    destruct q as [|c q']; [done|]. cbn [PyStr.is_empty].
    by destruct (search_matches lower genres (String c q')). }
  split; [exact Hrej|]. split; [|split].
  - intros Hne. exists (search_matches lower genres q).
    split; [by apply Hres|]. split.
    + intros i g. apply in_search_matches.
    + apply filter_enumerate_from_sorted.
  - intros Hlow. rewrite <- (Hlow (strip query)). fold q. split; [exact Hrej|].
    intros Hr. destruct (decide (q = EmptyString)) as [|Hne]; [done|].
    apply Hres in Hne. rewrite Hr in Hne. discriminate Hne.
  - intros f P g Hsplit Hlow Hg Hq.
    by apply (PyStrFacts.contains_letterwise lower f P).
Qed.

(** The examples of the specification, on ASCII text. *)
Example search_az :
  search_results
    (search_genres PyStr.lower PyStr.strip ["Jazz"; "Pop"; "Metal"]%string 7 "az")
  = Some [(0, "Jazz"%string)].
Proof. reflexivity. Qed.

Example search_trims_and_ignores_case :
  search_results
    (search_genres PyStr.lower PyStr.strip ["Jazz"; "Pop"; "Metal"]%string 7
       "  ETA ")
  = Some [(2, "Metal"%string)].
Proof. reflexivity. Qed.

Example search_blank_rejected :
  search_genres PyStr.lower PyStr.strip ["Jazz"; "Pop"; "Metal"]%string 7 "   "
  = SearchRejected.
Proof. reflexivity. Qed.

Lemma search_genres_spec_witness :
  search_genres PyStr.lower PyStr.strip ["Jazz"; "Pop"; "Metal"]%string 7 "   "
  = SearchRejected
  ∧ (∃ l, search_results
            (search_genres PyStr.lower PyStr.strip
               ["Jazz"; "Pop"; "Metal"]%string 7 " Az") = Some l
          ∧ (∀ i g, In (i, g) l ↔
               0 ≤ i ∧ ["Jazz"; "Pop"; "Metal"]%string !! Z.to_nat i = Some g
               ∧ ∃ pre post,
                   PyStr.lower g
                   = pre +:+ PyStr.lower (PyStr.strip " Az") +:+ post)
          ∧ StronglySorted Z.lt (map fst l))
  ∧ ((∃ pre post,
        PyStr.lower "Jazz" = pre +:+ PyStr.lower (PyStr.strip " Az") +:+ post)
     ↔ ci_substring PyStr.lower (PyStr.strip " Az") "Jazz").
Proof.
  split; [|split].
  - exact (proj1 (search_genres_spec PyStr.lower PyStr.strip
                    ["Jazz"; "Pop"; "Metal"]%string 7 "   ") eq_refl).
  - exact (proj1 (proj2 (search_genres_spec PyStr.lower PyStr.strip
                           ["Jazz"; "Pop"; "Metal"]%string 7 " Az"))
             ltac:(discriminate)).
  - exact (proj2 (proj2 (proj2 (search_genres_spec PyStr.lower PyStr.strip
                                  ["Jazz"; "Pop"; "Metal"]%string 7 " Az")))
             PyStr.lower_char (λ _, True) "Jazz"%string
             (λ _ _ _, conj I I) (λ s _, PyStrFacts.lower_map_chars s) I I).
Defined.

(** * Further properties *)

(** ** The everynoise link *)

Lemma append_empty_r (s : string) : s +:+ EmptyString = s.
Proof.
  induction s as [|c s IH]; [reflexivity|].
  change (String c s +:+ EmptyString) with (String c (s +:+ EmptyString)).
  by rewrite IH.
Qed.

Lemma keep_chars_app (f : ascii → bool) (s t : string) :
  keep_chars f (s +:+ t) = keep_chars f s +:+ keep_chars f t.
Proof.
  induction s as [|c s IH]; [reflexivity|].
  change (String c s +:+ t) with (String c (s +:+ t)). cbn [keep_chars].
  rewrite IH. by destruct (f c).
Qed.

Lemma keep_chars_true (f : ascii → bool) (s : string) :
  (∀ c, f c = true) → keep_chars f s = s.
Proof. intros Hf. induction s as [|c s IH]; simpl; [done|]. by rewrite Hf, IH. Qed.

(** Keeping [g] after keeping [f] is keeping [g] when [g] implies [f]. *)
Lemma keep_chars_keep_chars (f g : ascii → bool) (s : string) :
  (∀ c, g c = true → f c = true) →
  keep_chars g (keep_chars f s) = keep_chars g s.
Proof.
  intros Hgf. induction s as [|c s IH]; simpl; [done|].
  destruct (f c) eqn:Hf; simpl; rewrite IH; [done|].
  destruct (g c) eqn:Hg; [|done]. apply Hgf in Hg. congruence.
Qed.

Lemma keep_chars_idemp (f : ascii → bool) (s : string) :
  keep_chars f (keep_chars f s) = keep_chars f s.
Proof. by apply keep_chars_keep_chars. Qed.

Lemma is_slug_char_not_space (c : ascii) :
  is_slug_char c = true → PyStr.isspace c = false.
Proof. destruct c as [[] [] [] [] [] [] [] []]; (reflexivity || discriminate). Qed.

Lemma is_slug_char_lower_char (c : ascii) :
  is_slug_char (PyStr.lower_char c) = is_alnum c.
Proof. destruct c as [[] [] [] [] [] [] [] []]; reflexivity. Qed.

Lemma is_alnum_lower_char (c : ascii) :
  is_alnum (PyStr.lower_char c) = is_alnum c.
Proof. destruct c as [[] [] [] [] [] [] [] []]; reflexivity. Qed.

Lemma lower_char_idemp (c : ascii) :
  PyStr.lower_char (PyStr.lower_char c) = PyStr.lower_char c.
Proof. destruct c as [[] [] [] [] [] [] [] []]; reflexivity. Qed.

Lemma isspace_not_alnum (c : ascii) :
  PyStr.isspace c = true → is_alnum c = false.
Proof. destruct c as [[] [] [] [] [] [] [] []]; (reflexivity || discriminate). Qed.

Lemma lower_idemp (s : string) : PyStr.lower (PyStr.lower s) = PyStr.lower s.
Proof. induction s as [|c s IH]; simpl; [done|]. by rewrite lower_char_idemp, IH. Qed.

Lemma keep_slug_lower (s : string) :
  keep_chars is_slug_char (PyStr.lower s) = PyStr.lower (keep_chars is_alnum s).
Proof.
  induction s as [|c s IH]; simpl; [done|].
  rewrite is_slug_char_lower_char, IH. by destruct (is_alnum c).
Qed.

Lemma keep_alnum_lower (s : string) :
  keep_chars is_alnum (PyStr.lower s) = PyStr.lower (keep_chars is_alnum s).
Proof.
  induction s as [|c s IH]; simpl; [done|].
  rewrite is_alnum_lower_char, IH. by destruct (is_alnum c).
Qed.

Lemma keep_alnum_all_space (s : string) :
  PyStr.all_space s = true → keep_chars is_alnum s = EmptyString.
Proof.
  induction s as [|c s IH]; simpl; [done|].
  intros [Hc Hs]%andb_true_iff. by rewrite (isspace_not_alnum c Hc), IH.
Qed.

Lemma all_chars_keep_chars (f : ascii → bool) (s : string) :
  all_chars f (keep_chars f s) = true.
Proof.
  induction s as [|c s IH]; simpl; [done|].
  destruct (f c) eqn:Hc; simpl; [by rewrite Hc|done].
Qed.

(** The slug is made of the letters and digits of the name, in their order
    and in lower case; everything else, wherever it stands, is dropped. *)
Lemma slugify_alnum (name : string) :
  slugify_for_everynoise name = PyStr.lower (keep_chars is_alnum name).
Proof.
  unfold slugify_for_everynoise, nfkd.
  rewrite (keep_chars_true (λ ch, negb (truthy (combining ch)))) by done.
  rewrite keep_chars_keep_chars
    by (intros c Hc; by rewrite (is_slug_char_not_space c Hc)).
  rewrite keep_slug_lower. f_equal.
  destruct (PyStripFacts.strip_spec name) as (pre & post & Hname & Hpre & Hpost & _).
  remember (PyStr.strip name) as t. rewrite Hname, !keep_chars_app.
  rewrite (keep_alnum_all_space pre Hpre), (keep_alnum_all_space post Hpost).
  change (EmptyString +:+ keep_chars is_alnum t +:+ EmptyString)
    with (keep_chars is_alnum t +:+ EmptyString).
  by rewrite append_empty_r.
Qed.

(** X1: a slug holds nothing but the characters [a-z] and [0-9], whatever
    the name, so the link is the fixed prefix, such characters, and the
    fixed suffix. *)
Theorem slugify_charset (name : string) :
  all_chars is_slug_char (slugify_for_everynoise name) = true
  ∧ ∃ slug, everynoise_url name
            = "https://everynoise.com/everynoise1d-" +:+ slug +:+ ".html"
            ∧ all_chars is_slug_char slug = true.
Proof.
  assert (all_chars is_slug_char (slugify_for_everynoise name) = true) as H
    by apply all_chars_keep_chars.
  split; [exact H|]. by exists (slugify_for_everynoise name).
Qed.

(** X2: the slug is the lowered letters and digits of the name, so names
    that differ only in letter case, spacing or punctuation share a slug:
    it distributes over concatenation, ignores case, and a slug is its own
    slug. *)
Theorem slugify_ignores (a b : string) :
  slugify_for_everynoise a = PyStr.lower (keep_chars is_alnum a)
  ∧ slugify_for_everynoise (a +:+ b)
    = slugify_for_everynoise a +:+ slugify_for_everynoise b
  ∧ slugify_for_everynoise (PyStr.lower a) = slugify_for_everynoise a
  ∧ slugify_for_everynoise (slugify_for_everynoise a) = slugify_for_everynoise a.
Proof.
  rewrite !slugify_alnum. split; [done|]. split; [|split].
  - by rewrite keep_chars_app, PyStrFacts.lower_app.
  - by rewrite keep_alnum_lower, lower_idemp.
  - by rewrite keep_alnum_lower, keep_chars_idemp, lower_idemp.
Qed.

Example slugify_hip_hop :
  slugify_for_everynoise "  Hip-Hop / R&B 2 " = "hiphoprb2"%string.
Proof. reflexivity. Qed.

(** ** Start-up *)

Lemma is_empty_true (s : string) : PyStr.is_empty s = true ↔ s = EmptyString.
Proof. destruct s; simpl; split; intros; congruence. Qed.

Lemma lstrip_id (t : string) :
  (∀ c r, t = String c r → PyStr.isspace c = false) → PyStr.lstrip t = t.
Proof. destruct t as [|c r]; simpl; [done|]. intros H. by rewrite (H c r). Qed.

Lemma rstrip_id (t : string) :
  (∀ r c, t = r +:+ String c EmptyString → PyStr.isspace c = false) →
  PyStr.rstrip t = t.
Proof.
  induction t as [|c t IH]; simpl; [done|]. intros H.
  rewrite IH.
  - destruct t; [|done]. by rewrite (H EmptyString c).
  - intros r c' ->. by apply (H (String c r)).
Qed.

(** Stripping what is stripped changes nothing. *)
Lemma strip_idemp (s : string) : PyStr.strip (PyStr.strip s) = PyStr.strip s.
Proof.
  destruct (PyStripFacts.strip_spec s) as (_ & _ & _ & _ & _ & Hhd & Hlast).
  unfold PyStr.strip at 1. rewrite lstrip_id by exact Hhd. by apply rstrip_id.
Qed.


(** ** The catalogue table *)

Lemma db_init_fill (l : list string) (k : Z) (t : gmap Z string) (i : Z) :
  foldl (λ t ig, <[fst ig := snd ig]> t) t (enumerate_from k l) !! i
  = if (k <=? i) && (i <? k + Z.of_nat (length l))
    then l !! Z.to_nat (i - k) else t !! i.
Proof.
  revert k t. induction l as [|x l IH]; intros k t.
  - cbn [enumerate_from foldl length].
    destruct ((k <=? i) && (i <? k + Z.of_nat 0)) eqn:E; [|done].
    apply andb_true_iff in E as [?%Z.leb_le ?%Z.ltb_lt]. lia.
  - cbn [enumerate_from foldl]. rewrite IH. cbn [fst snd length].
    destruct ((k + 1 <=? i) && (i <? k + 1 + Z.of_nat (length l))) eqn:E.
    + apply andb_true_iff in E as [?%Z.leb_le ?%Z.ltb_lt].
      destruct ((k <=? i) && (i <? k + Z.of_nat (S (length l)))) eqn:E'.
      * replace (Z.to_nat (i - k)) with (S (Z.to_nat (i - (k + 1)))) by lia. done.
      * apply andb_false_iff in E' as [?%Z.leb_gt|?%Z.ltb_ge]; lia.
    + destruct (Z.eq_dec i k) as [->|Hne].
      * rewrite lookup_insert_eq, Z.sub_diag.
        destruct ((k <=? k) && (k <? k + Z.of_nat (S (length l)))) eqn:E'; [done|].
        apply andb_false_iff in E' as [?%Z.leb_gt|?%Z.ltb_ge]; lia.
      * rewrite lookup_insert_ne by done.
        destruct ((k <=? i) && (i <? k + Z.of_nat (S (length l)))) eqn:E'; [|done].
        apply andb_true_iff in E' as [?%Z.leb_le ?%Z.ltb_lt].
        apply andb_false_iff in E as [?%Z.leb_gt|?%Z.ltb_ge]; lia.
Qed.

(** X4: on an empty table [db_init] stores the catalogue, each name under
    its position; on a table that has rows it changes nothing, whatever the
    catalogue now is. *)
Theorem db_init_spec (genres : list string) (tbl : gmap Z string) :
  (tbl = ∅ →
   ∀ i, db_init genres tbl !! i
        = if i <? 0 then None else genres !! Z.to_nat i)
  ∧ (tbl ≠ ∅ → db_init genres tbl = tbl).
Proof.
  unfold db_init. split.
  - intros -> i. rewrite map_size_empty. simpl.
    unfold enumerate. rewrite db_init_fill, lookup_empty, Z.sub_0_r.
    destruct (Z.ltb_spec i 0), (Z.leb_spec 0 i); try lia; simpl; [done|].
    destruct (Z.ltb_spec i (0 + Z.of_nat (length genres))); [done|].
    symmetry. apply lookup_ge_None. lia.
  - intros Hne. destruct (Z.eqb_spec (Z.of_nat (size tbl)) 0) as [H0|]; [|done].
    exfalso. apply Hne, map_size_empty_iff. lia.
Qed.

(** ** The store, continued *)

(** X5: [get_user_idx] creates the cursor row at most once: it returns the
    stored cursor and leaves the store alone when the row exists, returns 0
    and stores 0 when it does not; either way a second call returns the same
    cursor and changes nothing, and no other cursor and no rating moves. *)
Theorem get_user_idx_idempotent (d : db) (user_id : Z) :
  let idx := fst (get_user_idx d user_id) in
  let d' := snd (get_user_idx d user_id) in
  get_user_idx d' user_id = (idx, d')
  ∧ idx = stored_idx d user_id
  ∧ progress d' !! user_id = Some idx
  ∧ (is_Some (progress d !! user_id) → d' = d)
  ∧ (∀ u, u ≠ user_id → progress d' !! u = progress d !! u)
  ∧ ratings d' = ratings d.
Proof.
  unfold get_user_idx, stored_idx.
  destruct (progress d !! user_id) as [i|] eqn:E; simpl.
  - rewrite E. repeat split; done.
  - rewrite lookup_insert_eq. split_and!; try done.
    intros u Hu. by apply lookup_insert_ne.
Qed.

Lemma merge_rating_again (ex : option rating_row) (a : rating_args) (now : string) :
  merge_rating (Some (merge_rating ex a now)) a now = merge_rating ex a now.
Proof.
  destruct a as [[?|] [?|] [?|] [?|] [?|]], ex as [[]|]; reflexivity.
Qed.

(** X7: [upsert_rating] can be repeated: the same call a second time, at the
    same clock reading, leaves the store as the first call left it. *)
Theorem upsert_rating_idempotent (d : db) (user_id genre_id : Z)
    (a : rating_args) (now : string) :
  upsert_rating (upsert_rating d user_id genre_id a now) user_id genre_id a now
  = upsert_rating d user_id genre_id a now.
Proof.
  unfold upsert_rating at 1. rewrite get_rating_upsert_eq, merge_rating_again.
  unfold upsert_rating, write_rating. simpl. by rewrite insert_insert_eq.
Qed.

(** ** The rating form *)

Lemma parse_score_range (v : option string) (n : Z) :
  parse_score v = Some (Some n) → 0 ≤ n ≤ 10.
Proof.
  unfold parse_score. destruct v as [v|]; [|discriminate].
  destruct (PyStr.is_empty v); [discriminate|].
  destruct (PyStr.is_empty (PyStr.strip v)); [discriminate|].
  destruct (py_int (PyStr.strip v)) as [m|]; [|discriminate].
  destruct (Z.ltb_spec m 0), (Z.ltb_spec 10 m); simpl; try discriminate.
  intros [= <-]. lia.
Qed.

Lemma rstrip_all_space (s : string) :
  PyStr.all_space s = true → PyStr.rstrip s = EmptyString.
Proof.
  induction s as [|c s IH]; simpl; [done|].
  intros [Hc Hs]%andb_true_iff. by rewrite (IH Hs), Hc.
Qed.

Lemma lstrip_pad (pre s : string) :
  PyStr.all_space pre = true → PyStr.lstrip (pre +:+ s) = PyStr.lstrip s.
Proof.
  induction pre as [|c pre IH]; [done|]. simpl.
  intros [Hc Hpre]%andb_true_iff.
  change (String c pre +:+ s) with (String c (pre +:+ s)). simpl.
  rewrite Hc. by apply IH.
Qed.

Lemma rstrip_pad (s post : string) :
  PyStr.all_space post = true → PyStr.rstrip (s +:+ post) = PyStr.rstrip s.
Proof.
  intros Hpost. induction s as [|c s IH].
  - by apply rstrip_all_space.
  - change (String c s +:+ post) with (String c (s +:+ post)).
    cbn [PyStr.rstrip]. by rewrite IH.
Qed.

(** White space around a stripped, non-empty text is all that [strip]
    removes. *)
Lemma strip_pad (pre t post : string) :
  PyStr.all_space pre = true → PyStr.all_space post = true →
  t ≠ EmptyString → PyStr.strip t = t →
  PyStr.strip (pre +:+ t +:+ post) = t.
Proof.
  intros Hpre Hpost Hne Ht. unfold PyStr.strip.
  rewrite lstrip_pad by exact Hpre.
  destruct (PyStripFacts.strip_spec t) as (_ & _ & _ & _ & _ & Hhd & _).
  rewrite Ht in Hhd. destruct t as [|c r]; [done|].
  change (String c r +:+ post) with (String c (r +:+ post)).
  cbn [PyStr.lstrip]. rewrite (Hhd c r eq_refl).
  change (String c (r +:+ post)) with (String c r +:+ post).
  rewrite rstrip_pad by exact Hpost.
  unfold PyStr.strip in Ht. rewrite lstrip_id in Ht; [done|].
  intros c' r' [= <- <-]. by apply (Hhd c r).
Qed.

Lemma py_int_strip (t : string) : py_int (PyStr.strip t) = py_int t.
Proof. unfold py_int. by rewrite strip_idemp. Qed.

Lemma parse_score_numeral (n : Z) :
  0 ≤ n ≤ 10 →
  pretty n ≠ EmptyString ∧ PyStr.strip (pretty n) = pretty n
  ∧ py_int (pretty n) = Some n.
Proof.
  intros Hn.
  assert (n = 0 ∨ n = 1 ∨ n = 2 ∨ n = 3 ∨ n = 4 ∨ n = 5 ∨ n = 6 ∨ n = 7
          ∨ n = 8 ∨ n = 9 ∨ n = 10) as Hcases by lia.
  repeat (destruct Hcases as [->|Hcases]); [..|subst n];
    (split; [by vm_compute|split; by vm_compute]).
Qed.

(** X8: [parse_score] yields a score only within 0-10; a field left empty
    or filled with white space yields no score and no error; the decimal
    numeral of each integer from 0 to 10 is read as that integer, also with
    white space around it; and text that [int] reads as an integer outside
    0-10 is an error. *)
Theorem parse_score_spec (v : option string) :
  (∀ n, parse_score v = Some (Some n) → 0 ≤ n ≤ 10)
  ∧ (v = None ∨ (∃ t, v = Some t ∧ PyStr.strip t = EmptyString) →
     parse_score v = Some None)
  ∧ (∀ n pre post, 0 ≤ n ≤ 10 →
       PyStr.all_space pre = true → PyStr.all_space post = true →
       v = Some (pre +:+ pretty n +:+ post) → parse_score v = Some (Some n))
  ∧ (∀ t n, v = Some t → py_int t = Some n → ¬ 0 ≤ n ≤ 10 →
       parse_score v = None).
Proof.
  split; [intros n; apply parse_score_range|]. split; [|split].
  - intros [->|(t & -> & Ht)]; [done|]. unfold parse_score.
    destruct (PyStr.is_empty t); [done|]. by rewrite Ht.
  - intros n pre post Hn Hpre Hpost ->.
    destruct (parse_score_numeral n Hn) as (Hne & Hstrip & Hint).
    pose proof (strip_pad pre (pretty n) post Hpre Hpost Hne Hstrip) as Hs.
    unfold parse_score.
    destruct (PyStr.is_empty (pre +:+ pretty n +:+ post)) eqn:He.
    { apply is_empty_true in He. rewrite He in Hs. by vm_compute in Hs. }
    rewrite Hs.
    destruct (PyStr.is_empty (pretty n)) eqn:He'; [by apply is_empty_true in He'|].
    rewrite Hint.
    destruct (Z.ltb_spec n 0), (Z.ltb_spec 10 n); simpl; done || lia.
  - intros t n -> Hint Hn. unfold parse_score.
    destruct (PyStr.is_empty t) eqn:He.
    { apply is_empty_true in He. subst t. by vm_compute in Hint. }
    destruct (PyStr.is_empty (PyStr.strip t)) eqn:He'.
    { apply is_empty_true in He'. unfold py_int in Hint. by rewrite He' in Hint. }
    rewrite py_int_strip, Hint.
    destruct (Z.ltb_spec n 0), (Z.ltb_spec 10 n); simpl; done || lia.
Qed.

(** ** What the handlers keep *)

Lemma row_ok_merge (ex : option rating_row) (a : rating_args) (now : string) :
  (∀ r, ex = Some r → row_ok r) → args_ok a → row_ok (merge_rating ex a now).
Proof.
  intros Hex (H1 & H2 & H3 & H4). unfold row_ok, merge_rating, keep_if_none.
  destruct ex as [r|].
  - destruct (Hex r eq_refl) as (R1 & R2 & R3 & R4).
    destruct a as [[?|] [?|] [?|] [?|] ?]; simpl in *; split_and!;
      eauto; lia.
  - destruct a as [[?|] [?|] [?|] [?|] ?]; simpl in *; split_and!;
      eauto; (lia || by left).
Qed.

Lemma ratings_ok_upsert (d : db) (u g : Z) (a : rating_args) (now : string) :
  ratings_ok d → args_ok a → ratings_ok (upsert_rating d u g a now).
Proof.
  intros Hd Ha u' g' r.
  destruct (decide ((u, g) = (u', g'))) as [[= <- <-]|Hne].
  - rewrite get_rating_upsert_eq. intros [= <-].
    apply row_ok_merge; [|done]. intros r. apply Hd.
  - rewrite get_rating_upsert_ne by done. apply Hd.
Qed.

Lemma ratings_ok_empty : ratings_ok db_empty.
Proof. intros u g r. unfold get_rating. simpl. by rewrite lookup_empty. Qed.

Lemma toggled_flag_ok (z : Z) : flag_ok (if truthy z then 0 else 1).
Proof. destruct (truthy z); [by left|by right]. Qed.

(** X9: every stored score within 0-10 and every stored flag 0 or 1 is a
    property of the store that each handler keeps: a submitted form (saved
    or refused), either flag button, and [/next]. *)
Theorem handlers_keep_ratings_ok (d : db) (genres : list string)
    (user_id genre_id : Z) (score1_value score2_value comment_value : option string)
    (now : string) :
  ratings_ok d →
  ratings_ok (snd (on_submit d user_id genre_id score1_value score2_value
                     comment_value now))
  ∧ ratings_ok (toggle_flag1 d user_id genre_id now)
  ∧ ratings_ok (toggle_flag2 d user_id genre_id now)
  ∧ ratings_ok (snd (next_genre genres d user_id)).
Proof.
  intros Hd. split_and!.
  - unfold on_submit.
    destruct (parse_score score1_value) as [s1|] eqn:E1; [|done].
    destruct (parse_score score2_value) as [s2|] eqn:E2; [|done].
    cbn [snd]. apply ratings_ok_upsert; [done|].
    unfold args_ok, score_ok. cbn. split_and!; try done.
    + destruct s1 as [n|]; [|done]. by apply (parse_score_range score1_value).
    + destruct s2 as [n|]; [|done]. by apply (parse_score_range score2_value).
  - unfold toggle_flag1. apply ratings_ok_upsert; [done|].
    unfold args_ok. cbn. split_and!; try done. intros f [= <-].
    destruct (get_rating d user_id genre_id); [apply toggled_flag_ok|by right].
  - unfold toggle_flag2. apply ratings_ok_upsert; [done|].
    unfold args_ok. cbn. split_and!; try done. intros f [= <-].
    destruct (get_rating d user_id genre_id); [apply toggled_flag_ok|by right].
  - intros u g r. unfold next_genre, get_rating.
    destruct (stored_idx_get_user_idx d user_id) as (_ & _ & Hr).
    destruct (get_user_idx d user_id) as [idx d1]. simpl in Hr.
    destruct (_ =? 0); [cbn [snd]; rewrite Hr; apply Hd|].
    destruct (py_index _ _); cbn [snd set_user_idx ratings]; rewrite Hr; apply Hd.
Qed.

Lemma handlers_keep_ratings_ok_witness :
  ratings_ok (snd (on_submit db_empty 7 0 (Some "7") (Some " 10 ") None "t"))
  ∧ ratings_ok (toggle_flag1 db_empty 7 0 "t")
  ∧ ratings_ok (toggle_flag2 db_empty 7 0 "t")
  ∧ ratings_ok (snd (next_genre ["Jazz"%string] db_empty 7)).
Proof.
  exact (handlers_keep_ratings_ok db_empty ["Jazz"%string] 7 0
           (Some "7"%string) (Some " 10 "%string) None "t"
           ltac:(intros u g r; unfold get_rating; simpl; rewrite lookup_empty;
                 discriminate)).
Defined.

(** X10: a submitted form never erases a stored score and never touches
    the flags; a score field left empty keeps the stored score.  The comment
    is kept when the field is empty, but a field of white space only stores
    the empty comment. *)
Theorem on_submit_keeps (d : db) (user_id genre_id : Z)
    (score1_value score2_value comment_value : option string)
    (now : string) (r : rating_row) :
  get_rating d user_id genre_id = Some r →
  ∃ r',
    get_rating
      (snd (on_submit d user_id genre_id score1_value score2_value
              comment_value now)) user_id genre_id = Some r'
    ∧ (is_Some (score1 r) → is_Some (score1 r'))
    ∧ (is_Some (score2 r) → is_Some (score2 r'))
    ∧ (parse_score score1_value = Some None → score1 r' = score1 r)
    ∧ (parse_score score2_value = Some None → score2 r' = score2 r)
    ∧ flag1 r' = flag1 r ∧ flag2 r' = flag2 r
    ∧ (comment_value = None ∨ comment_value = Some EmptyString →
       comment r' = comment r)
    ∧ (∀ c, comment_value = Some c → c ≠ EmptyString →
         PyStr.strip c = EmptyString →
         fst (on_submit d user_id genre_id score1_value score2_value
                comment_value now) = true →
         comment r' = Some EmptyString).
Proof.
  intros Hr. unfold on_submit.
  destruct (parse_score score1_value) as [s1|] eqn:E1;
    [destruct (parse_score score2_value) as [s2|] eqn:E2|]; cbn [fst snd].
  - rewrite get_rating_upsert_eq, Hr. eexists. split; [reflexivity|].
    cbn. split_and!.
    + destruct s1; eauto.
    + destruct s2; eauto.
    + by intros [= ->].
    + by intros [= ->].
    + done.
    + done.
    + by intros [->| ->].
    + intros c -> Hne Hc _. rewrite Hc. by destruct c.
  - exists r. by split_and!.
  - exists r. by split_and!.
Qed.

Lemma on_submit_keeps_witness :
  ∃ r',
    get_rating
      (snd (on_submit (upsert_rating db_empty 7 0
                         (RatingArgs (Some 7) None None None (Some "x"%string)) "t0")
              7 0 (Some "") (Some "9") (Some "  ") "t1")) 7 0 = Some r'
    ∧ score1 r' = Some 7 ∧ comment r' = Some EmptyString.
Proof.
  destruct (on_submit_keeps
              (upsert_rating db_empty 7 0
                 (RatingArgs (Some 7) None None None (Some "x"%string)) "t0")
              7 0 (Some ""%string) (Some "9"%string) (Some "  "%string) "t1" _
              (get_rating_upsert_eq db_empty 7 0 _ "t0"))
    as (r' & Hr' & _ & _ & H1 & _ & _ & _ & _ & Hc).
  exists r'. split; [exact Hr'|]. split.
  - rewrite (H1 eq_refl). reflexivity.
  - exact (Hc "  "%string eq_refl ltac:(discriminate) eq_refl eq_refl).
Defined.

(** ** The flag buttons *)

Lemma truthy_toggled (z : Z) : truthy (if truthy z then 0 else 1) = negb (truthy z).
Proof. by destruct (truthy z). Qed.

Lemma get_rating_toggle_flag1 (d : db) (u g : Z) (t : string) :
  get_rating (toggle_flag1 d u g t) u g
  = Some (merge_rating (get_rating d u g)
            (RatingArgs None None
               (Some match get_rating d u g with
                     | Some r => if truthy (flag1 r) then 0 else 1
                     | None => 1
                     end) None None) t).
Proof. apply get_rating_upsert_eq. Qed.

Lemma get_rating_toggle_flag2 (d : db) (u g : Z) (t : string) :
  get_rating (toggle_flag2 d u g t) u g
  = Some (merge_rating (get_rating d u g)
            (RatingArgs None None None
               (Some match get_rating d u g with
                     | Some r => if truthy (flag2 r) then 0 else 1
                     | None => 1
                     end) None) t).
Proof. apply get_rating_upsert_eq. Qed.

(** X11: a flag button flips its flag and nothing else; pressed twice it
    brings the rating back: same scores, same comment, same other flag, the
    flag itself as 0 or 1 with the truth value it had, and so the same
    computed score.  On a pair without a row the first press creates the row
    with the flag set and no scores. *)
Theorem toggle_flag_twice (d : db) (user_id genre_id : Z) (t1 t2 : string) :
  let old := get_rating d user_id genre_id in
  (∃ r1 r2,
     get_rating (toggle_flag1 d user_id genre_id t1) user_id genre_id = Some r1
     ∧ get_rating
         (toggle_flag1 (toggle_flag1 d user_id genre_id t1) user_id genre_id t2)
         user_id genre_id = Some r2
     ∧ truthy (flag1 r1) = negb (truthy (default 0 (flag1 <$> old)))
     ∧ flag1 r2 = (if truthy (default 0 (flag1 <$> old)) then 1 else 0)
     ∧ score1 r1 = old ≫= score1 ∧ score1 r2 = old ≫= score1
     ∧ score2 r1 = old ≫= score2 ∧ score2 r2 = old ≫= score2
     ∧ flag2 r1 = default 0 (flag2 <$> old) ∧ flag2 r2 = default 0 (flag2 <$> old)
     ∧ comment r1 = old ≫= comment ∧ comment r2 = old ≫= comment
     ∧ (∀ r, old = Some r → row_score r2 = row_score r))
  ∧ (∃ r1 r2,
       get_rating (toggle_flag2 d user_id genre_id t1) user_id genre_id = Some r1
       ∧ get_rating
           (toggle_flag2 (toggle_flag2 d user_id genre_id t1) user_id genre_id t2)
           user_id genre_id = Some r2
       ∧ truthy (flag2 r1) = negb (truthy (default 0 (flag2 <$> old)))
       ∧ flag2 r2 = (if truthy (default 0 (flag2 <$> old)) then 1 else 0)
       ∧ score1 r1 = old ≫= score1 ∧ score1 r2 = old ≫= score1
       ∧ score2 r1 = old ≫= score2 ∧ score2 r2 = old ≫= score2
       ∧ flag1 r1 = default 0 (flag1 <$> old) ∧ flag1 r2 = default 0 (flag1 <$> old)
       ∧ comment r1 = old ≫= comment ∧ comment r2 = old ≫= comment
       ∧ (∀ r, old = Some r → row_score r2 = row_score r)).
Proof.
  intros old. subst old. split.
  - rewrite (get_rating_toggle_flag1 (toggle_flag1 _ _ _ _)).
    rewrite !get_rating_toggle_flag1.
    eexists _, _. split; [reflexivity|]. split; [reflexivity|].
    destruct (get_rating d user_id genre_id) as [[s1 s2 f1 f2 c u]|]; cbn.
    + rewrite truthy_toggled. split_and!; try done.
      * by destruct (truthy f1).
      * intros r [= <-]. unfold row_score, computed_score. cbn.
        by destruct (truthy f1).
    + by split_and!.
  - rewrite (get_rating_toggle_flag2 (toggle_flag2 _ _ _ _)).
    rewrite !get_rating_toggle_flag2.
    eexists _, _. split; [reflexivity|]. split; [reflexivity|].
    destruct (get_rating d user_id genre_id) as [[s1 s2 f1 f2 c u]|]; cbn.
    + rewrite truthy_toggled. split_and!; try done.
      * by destruct (truthy f2).
      * intros r [= <-]. unfold row_score, computed_score. cbn.
        by destruct (truthy f2).
    + by split_and!.
Qed.

Lemma get_user_idx_others (d : db) (u other : Z) :
  other ≠ u →
  progress (snd (get_user_idx d u)) !! other = progress d !! other
  ∧ ratings (snd (get_user_idx d u)) = ratings d.
Proof.
  intros Hne. unfold get_user_idx. destruct (progress d !! u); simpl; [done|].
  split; [|done]. by apply lookup_insert_ne.
Qed.

(** X6: what a user does changes nothing of what is stored for anyone
    else: after a submitted form, a flag button or [/next] of one user, every
    other user has the ratings and the cursor they had. *)
Theorem handlers_leave_others (d : db) (genres : list string)
    (user_id genre_id other : Z)
    (score1_value score2_value comment_value : option string) (now : string) :
  other ≠ user_id →
  let same (d' : db) :=
    (∀ g, get_rating d' other g = get_rating d other g)
    ∧ progress d' !! other = progress d !! other in
  same (snd (on_submit d user_id genre_id score1_value score2_value
               comment_value now))
  ∧ same (toggle_flag1 d user_id genre_id now)
  ∧ same (toggle_flag2 d user_id genre_id now)
  ∧ same (snd (next_genre genres d user_id)).
Proof.
  intros Hne same.
  assert (∀ a, same (upsert_rating d user_id genre_id a now)) as Hup.
  { intros a. split; [|done]. intros g. apply get_rating_upsert_ne. congruence. }
  split_and!.
  - unfold on_submit. destruct (parse_score score1_value); [|done].
    destruct (parse_score score2_value); [|done]. apply Hup.
  - apply Hup.
  - apply Hup.
  - unfold next_genre.
    pose proof (get_user_idx_others d user_id other Hne) as [Hp Hr].
    destruct (get_user_idx d user_id) as [idx d1]. cbn [fst snd] in Hp, Hr.
    assert (same d1) as Hd1.
    { split; [|exact Hp]. intros g. unfold get_rating. by rewrite Hr. }
    destruct (_ =? 0); [done|]. destruct (py_index _ _); [|done].
    cbn [snd]. destruct Hd1 as [Hg Hc]. split.
    + intros g. rewrite <- Hg. reflexivity.
    + rewrite <- Hc. unfold set_user_idx. cbn. by apply lookup_insert_ne.
Qed.

Lemma handlers_leave_others_witness :
  (∀ g, get_rating (toggle_flag1 (set_user_idx db_empty 8 2) 7 0 "t") 8 g
        = get_rating (set_user_idx db_empty 8 2) 8 g)
  ∧ progress (snd (next_genre ["Jazz"; "Pop"]%string (set_user_idx db_empty 8 2) 7)) !! 8
    = progress (set_user_idx db_empty 8 2) !! 8.
Proof.
  pose proof (handlers_leave_others (set_user_idx db_empty 8 2)
                ["Jazz"; "Pop"]%string 7 0 8 None None None "t"
                ltac:(discriminate)) as (_ & [H1 _] & _ & [_ H2]).
  exact (conj H1 H2).
Defined.

(** ** [/info], [/next] and [/search] together *)

Lemma search_results_in_catalogue (lower strip : string → string)
    (genres : list string) (u : Z) (query : string)
    (l : list (Z * string)) (i : Z) (name : string) :
  search_results (search_genres lower strip genres u query) = Some l →
  In (i, name) l → 0 ≤ i ∧ genres !! Z.to_nat i = Some name.
Proof.
  unfold search_genres. destruct (PyStr.is_empty _); [discriminate|].
  destruct (search_matches lower genres _) as [|m ms] eqn:Hm; cbn; intros [= <-];
    [done|].
  rewrite <- Hm. unfold search_matches. rewrite filter_In, in_enumerate. tauto.
Qed.

(** X12: [/info] shows an item exactly for the ids from 0 to the catalogue
    size minus one, a negative id is refused rather than counted from the
    end; the item that [/next] shows and every result of [/search] is one
    that [/info] shows under the same id, with the same name. *)
Theorem info_genre_spec (genres : list string) (genre_id : Z) :
  (∀ i name, info_genre genres genre_id = Some (i, name) ↔
     i = genre_id ∧ 0 ≤ genre_id < Z.of_nat (length genres)
     ∧ genres !! Z.to_nat genre_id = Some name)
  ∧ (∀ d u i name, fst (next_genre genres d u) = Some (i, name) →
       info_genre genres i = Some (i, name))
  ∧ (∀ lower strip u query l i name,
       search_results (search_genres lower strip genres u query) = Some l →
       In (i, name) l → info_genre genres i = Some (i, name)).
Proof.
  assert (∀ i name, 0 ≤ i → genres !! Z.to_nat i = Some name →
                    info_genre genres i = Some (i, name)) as Hinfo.
  { intros i name Hi Hl. unfold info_genre, py_index.
    pose proof (lookup_lt_Some _ _ _ Hl) as Hlt.
    destruct (Z.ltb_spec i 0); [lia|].
    destruct (Z.leb_spec (Z.of_nat (length genres)) i); [lia|].
    simpl. by rewrite Hl. }
  split_and!.
  - intros i name. split.
    + unfold info_genre, py_index.
      destruct (Z.ltb_spec genre_id 0); [done|].
      destruct (Z.leb_spec (Z.of_nat (length genres)) genre_id); [done|]. simpl.
      destruct (genres !! Z.to_nat genre_id) eqn:E; [|done].
      intros [= <- <-]. split_and!; done || lia.
    + intros (-> & Hr & Hl). apply Hinfo; [lia|done].
  - intros d u i name Hnext. destruct genres as [|g0 genres'] eqn:Hg.
    { unfold next_genre in Hnext. destruct (get_user_idx d u). done. }
    rewrite <- Hg in *.
    destruct (next_genre_step genres d u ltac:(by rewrite Hg))
      as (name' & d' & Hstep & Hl & _).
    rewrite Hstep in Hnext. injection Hnext as <- <-.
    apply Hinfo; [|done]. apply Z.mod_pos_bound. rewrite Hg. simpl. lia.
  - intros lower strip u query l i name Hres Hin.
    destruct (search_results_in_catalogue _ _ _ _ _ _ _ _ Hres Hin) as [Hi Hl].
    by apply Hinfo.
Qed.

(** ** A full round of [/next] *)

Lemma mod_shift_inj (c n k1 k2 : Z) :
  0 < n → 0 ≤ k1 < n → 0 ≤ k2 < n →
  (c + k1) mod n = (c + k2) mod n → k1 = k2.
Proof.
  intros Hn H1 H2 Heq.
  pose proof (Z.div_mod (c + k1) n ltac:(lia)) as E1.
  pose proof (Z.div_mod (c + k2) n ltac:(lia)) as E2.
  rewrite Heq in E1.
  remember ((c + k1) / n - (c + k2) / n) as t.
  assert (k1 - k2 = n * t) as Hd by (subst t; lia).
  assert (t = 0) as Ht.
  { destruct (Z.lt_trichotomy t 0) as [Hlt|[->|Hgt]]; [|done|].
    - assert (n * t ≤ n * (-1)) by (apply Z.mul_le_mono_nonneg_l; lia). lia.
    - assert (n * 1 ≤ n * t) by (apply Z.mul_le_mono_nonneg_l; lia). lia. }
  rewrite Ht in Hd. lia.
Qed.

(** X13: as many [/next] in a row as the catalogue has items show every
    item exactly once, wherever the cursor stood. *)
Theorem next_genre_full_round (genres : list string) (d : db) (u : Z) :
  genres ≠ [] →
  ∃ ids,
    map (fmap fst) (fst (next_genre_n genres d u (length genres))) = map Some ids
    ∧ ids ≡ₚ seqZ 0 (Z.of_nat (length genres)).
Proof.
  intros Hne. set (n := Z.of_nat (length genres)).
  assert (0 < n) as Hn by (subst n; destruct genres; [done|simpl; lia]).
  exists (map (λ k, (stored_idx d u + Z.of_nat k) mod n) (seq 0 (length genres))).
  split.
  - rewrite next_genre_n_ids by done. by rewrite map_map.
  - apply NoDup_Permutation.
    + apply NoDup_fmap_2_strong; [|apply NoDup_seq].
      intros k1 k2 Hk1%elem_of_seq Hk2%elem_of_seq Heq.
      apply (mod_shift_inj _ n) in Heq; lia.
    + apply NoDup_seqZ.
    + intros x. rewrite elem_of_seqZ, list_elem_of_fmap. split.
      * intros (k & -> & Hk%elem_of_seq).
        pose proof (Z.mod_pos_bound (stored_idx d u + Z.of_nat k) n Hn). lia.
      * intros Hx. exists (Z.to_nat ((x - stored_idx d u) mod n)).
        pose proof (Z.mod_pos_bound (x - stored_idx d u) n Hn) as Hb.
        split; [|apply elem_of_seq; lia].
        rewrite Z2Nat.id by lia. rewrite Zplus_mod_idemp_r.
        replace (stored_idx d u + (x - stored_idx d u)) with x by lia.
        symmetry. apply Z.mod_small. lia.
Qed.

Lemma next_genre_full_round_witness :
  ∃ ids,
    map (fmap fst)
      (fst (next_genre_n ["Jazz"; "Pop"; "Metal"]%string
              (set_user_idx db_empty 7 2) 7 3)) = map Some ids
    ∧ ids ≡ₚ seqZ 0 3.
Proof.
  exact (next_genre_full_round ["Jazz"; "Pop"; "Metal"]%string
           (set_user_idx db_empty 7 2) 7 ltac:(discriminate)).
Defined.

(** ** The views in use *)

Lemma search_click_keeps (v : SearchResultsView.t) (c : search_click) :
  0 ≤ SearchResultsView.page v ≤ SearchResultsView._total_pages v - 1 →
  0 ≤ SearchResultsView.page (search_click_apply v c)
    ≤ SearchResultsView._total_pages (search_click_apply v c) - 1
  ∧ SearchResultsView.results (search_click_apply v c) = SearchResultsView.results v
  ∧ SearchResultsView.page_size (search_click_apply v c)
    = SearchResultsView.page_size v.
Proof.
  destruct v as [u res q k p], c;
    unfold search_click_apply, SearchResultsView.prev_button,
      SearchResultsView.next_button, SearchResultsView.set_page,
      SearchResultsView._total_pages; cbn; intros; split_and!; done || lia.
Qed.

Lemma rank_click_keeps (v : RankView.t) (c : rank_click) :
  0 ≤ RankView.page v ≤ RankView._total_pages v - 1 →
  0 ≤ RankView.page (rank_click_apply v c)
    ≤ RankView._total_pages (rank_click_apply v c) - 1
  ∧ RankView.items (rank_click_apply v c) = RankView.items v
  ∧ RankView.page_size (rank_click_apply v c) = RankView.page_size v.
Proof.
  destruct v as [u its o p k], c;
    unfold rank_click_apply, RankView.prev_button, RankView.next_button,
      RankView.select_order, RankView.set_page, RankView._total_pages; cbn;
    intros; split_and!; done || lia.
Qed.

(** X14: whatever buttons are pressed on a view, in whatever order, its page
    stays between 0 and the last page, and its items and page size are the
    ones it was opened with.  This holds for the search view and for the
    rank view, where choosing an order counts as a press. *)
Theorem views_page_in_range (u : Z) (results : list (Z * string)) (query : string)
    (k : Z) (sclicks : list search_click)
    (items : list RankView.item) (rclicks : list rank_click) :
  let sv := foldl search_click_apply (SearchResultsView.init u results query k) sclicks in
  let rv := foldl rank_click_apply (RankView.init u items) rclicks in
  (0 ≤ SearchResultsView.page sv ≤ SearchResultsView._total_pages sv - 1
   ∧ SearchResultsView.results sv = results
   ∧ SearchResultsView.page_size sv = k)
  ∧ (0 ≤ RankView.page rv ≤ RankView._total_pages rv - 1
     ∧ RankView.items rv = items
     ∧ RankView.page_size rv = 15).
Proof.
  intros sv rv. split.
  - subst sv.
    assert (∀ v,
      0 ≤ SearchResultsView.page v ≤ SearchResultsView._total_pages v - 1 →
      let v' := foldl search_click_apply v sclicks in
      0 ≤ SearchResultsView.page v' ≤ SearchResultsView._total_pages v' - 1
      ∧ SearchResultsView.results v' = SearchResultsView.results v
      ∧ SearchResultsView.page_size v' = SearchResultsView.page_size v) as H.
    { induction sclicks as [|c cs IH]; intros v Hv; [done|]. cbn [foldl].
      destruct (search_click_keeps v c Hv) as (Hp & Hr & Hk).
      destruct (IH _ Hp) as (Hp' & Hr' & Hk').
      split; [exact Hp'|split; congruence]. }
    apply (H (SearchResultsView.init u results query k)).
    unfold SearchResultsView._total_pages. cbn. lia.
  - subst rv.
    assert (∀ v,
      0 ≤ RankView.page v ≤ RankView._total_pages v - 1 →
      let v' := foldl rank_click_apply v rclicks in
      0 ≤ RankView.page v' ≤ RankView._total_pages v' - 1
      ∧ RankView.items v' = RankView.items v
      ∧ RankView.page_size v' = RankView.page_size v) as H.
    { induction rclicks as [|c cs IH]; intros v Hv; [done|]. cbn [foldl].
      destruct (rank_click_keeps v c Hv) as (Hp & Hr & Hk).
      destruct (IH _ Hp) as (Hp' & Hr' & Hk').
      split; [exact Hp'|split; congruence]. }
    apply (H (RankView.init u items)).
    unfold RankView._total_pages. cbn. lia.
Qed.

(** X15: on a view whose page is in range, a page button is shown disabled
    exactly when pressing it would leave the view as it is: "previous" on
    the first page, "next" on the last. *)
Theorem disabled_buttons_are_idle (sv : SearchResultsView.t) (rv : RankView.t) :
  0 ≤ SearchResultsView.page sv ≤ SearchResultsView._total_pages sv - 1 →
  0 ≤ RankView.page rv ≤ RankView._total_pages rv - 1 →
  (fst (SearchResultsView._update_buttons sv) = true
   ↔ SearchResultsView.prev_button sv = sv)
  ∧ (snd (SearchResultsView._update_buttons sv) = true
     ↔ SearchResultsView.next_button sv = sv)
  ∧ (fst (RankView._update_buttons rv) = true ↔ RankView.prev_button rv = rv)
  ∧ (snd (RankView._update_buttons rv) = true ↔ RankView.next_button rv = rv).
Proof.
  intros Hs Hr.
  destruct sv as [u res q k p], rv as [u' its o p' k'].
  unfold SearchResultsView._update_buttons, SearchResultsView.prev_button,
    SearchResultsView.next_button, SearchResultsView.set_page,
    RankView._update_buttons, RankView.prev_button, RankView.next_button,
    RankView.set_page in *.
  unfold SearchResultsView._total_pages, RankView._total_pages in *.
  cbn in *. rewrite !Z.leb_le.
  split_and!; (split; [intros H; f_equal; lia|intros [= H]; lia]).
Qed.

Lemma disabled_buttons_are_idle_witness :
  (fst (SearchResultsView._update_buttons
          (SearchResultsView.init 7 [(0, "Jazz"%string)] "az" 15)) = true
   ↔ SearchResultsView.prev_button
       (SearchResultsView.init 7 [(0, "Jazz"%string)] "az" 15)
     = SearchResultsView.init 7 [(0, "Jazz"%string)] "az" 15)
  ∧ (snd (RankView._update_buttons (RankView.init 7 [])) = true
     ↔ RankView.next_button (RankView.init 7 []) = RankView.init 7 []).
Proof.
  pose proof (disabled_buttons_are_idle
                (SearchResultsView.init 7 [(0, "Jazz"%string)] "az" 15)
                (RankView.init 7 [])
                ltac:(vm_compute; split; discriminate)
                ltac:(vm_compute; split; discriminate)) as (H1 & _ & _ & H4).
  exact (conj H1 H4).
Defined.

(** ** The pages together *)

Lemma py_slice_take_drop {A} (l : list A) (start k : Z) :
  1 ≤ k → 0 ≤ start ≤ Z.of_nat (length l) →
  py_slice l start (start + k) = take (Z.to_nat k) (drop (Z.to_nat start) l).
Proof.
  intros Hk Hs. rewrite py_slice_inside by done.
  destruct (Z.le_gt_cases (start + k) (Z.of_nat (length l))) as [Hle|Hgt].
  - rewrite Z.min_l by done. f_equal. lia.
  - rewrite Z.min_r by lia. rewrite !take_ge; [done|..]; rewrite length_drop; lia.
Qed.

(** Cutting a list into [m] stretches of [k] and joining them gives the
    list back, when [m] stretches are enough. *)
Lemma chunks_concat {A} (k m : nat) (l : list A) :
  (0 < k)%nat → (length l ≤ m * k)%nat →
  concat (map (λ p, take k (drop (p * k) l)) (seq 0 m)) = l.
Proof.
  intros Hk. revert l. induction m as [|m IH]; intros l Hl.
  - destruct l; [done|simpl in Hl; lia].
  - cbn [seq map concat]. rewrite <- seq_shift, map_map.
    transitivity (take k l ++ drop k l); [|apply take_drop].
    f_equal.
    etransitivity; [|apply (IH (drop k l)); rewrite length_drop; lia].
    f_equal. apply map_ext. intros p. rewrite drop_drop. f_equal; lia.
Qed.

Lemma map_seqZ {B} (f : Z → B) (m : Z) :
  map f (seqZ 0 m) = map (λ p, f (Z.of_nat p)) (seq 0 (Z.to_nat m)).
Proof.
  unfold seqZ. induction (seq 0 (Z.to_nat m)) as [|i l IH]; [done|].
  cbn. by rewrite Z.add_0_r, <- IH.
Qed.

Lemma all_pages_concat {A} (l : list A) (k : Z) :
  1 ≤ k →
  concat (map (λ p, py_slice l (p * k) (p * k + k))
            (seqZ 0 (Z.max 1 (ceil_div (Z.of_nat (length l)) k)))) = l.
Proof.
  intros Hk.
  pose proof (ceil_div_is_ceiling (Z.of_nat (length l)) k ltac:(lia)) as Hc.
  unfold is_ceiling in Hc.
  set (m := Z.max 1 (ceil_div (Z.of_nat (length l)) k)) in *.
  etransitivity; [|apply (chunks_concat (Z.to_nat k) (Z.to_nat m) l); nia].
  f_equal. rewrite map_seqZ.
  apply map_ext_in. intros p Hp%in_seq.
  assert (0 ≤ Z.of_nat p ≤ m - 1) as Hpm by lia.
  destruct (page_start_le (Z.of_nat (length l)) k (Z.of_nat p) Hk
              ltac:(lia) Hpm) as [Hstart _].
  rewrite py_slice_take_drop by done. f_equal. f_equal. lia.
Qed.

(** X16: with a page size of at least 1 the pages of a view, from the first
    to the last, joined in order, are the whole sequence: every search
    result and every ranked item is on exactly one page, in order. *)
Theorem pages_cover (sv : SearchResultsView.t) (rv : RankView.t) :
  1 ≤ SearchResultsView.page_size sv → 1 ≤ RankView.page_size rv →
  concat (map (λ p, fst (fst (SearchResultsView._page_slice
                                (SearchResultsView.set_page sv p))))
            (seqZ 0 (SearchResultsView._total_pages sv)))
  = SearchResultsView.results sv
  ∧ concat (map (λ p, fst (fst (fst (RankView._page_slice
                                       (RankView.set_page rv p)))))
              (seqZ 0 (RankView._total_pages rv)))
    = RankView._sorted_items rv.
Proof.
  intros Hs Hr. split.
  - destruct sv as [u res q k p]. apply (all_pages_concat res k Hs).
  - destruct rv as [u its o p k].
    unfold RankView._total_pages, RankView._page_slice, RankView._sorted_items,
      RankView.set_page.
    cbn [fst RankView.page RankView.page_size RankView.items RankView.order].
    rewrite <- (length_sorted RankView.score PrimFloat.ltb its
                  match o with Desc => true | Asc => false end).
    apply (all_pages_concat _ k Hr).
Qed.

Lemma pages_cover_witness :
  concat (map (λ p, fst (fst (SearchResultsView._page_slice
                                (SearchResultsView.set_page
                                   (SearchResultsView.init 7
                                      [(0, "Jazz"); (2, "Metal")]%string "a" 1) p))))
            (seqZ 0 (SearchResultsView._total_pages
                       (SearchResultsView.init 7
                          [(0, "Jazz"); (2, "Metal")]%string "a" 1))))
  = [(0, "Jazz"); (2, "Metal")]%string.
Proof.
  exact (proj1 (pages_cover
                  (SearchResultsView.init 7 [(0, "Jazz"); (2, "Metal")]%string "a" 1)
                  (RankView.init 7 []) ltac:(simpl; lia) ltac:(simpl; lia))).
Defined.

Lemma lookup_enumerate_from {A} (l : list A) (k : Z) (j : nat) :
  enumerate_from k l !! j = (λ x, (k + Z.of_nat j, x)) <$> l !! j.
Proof.
  revert k j. induction l as [|x l IH]; intros k [|j]; simpl; try done.
  - by rewrite Z.add_0_r.
  - rewrite IH. destruct (l !! j); simpl; [|done]. do 2 f_equal. lia.
Qed.

(** X17: on a rank view with a page size of at least 1 and its page in
    range, the number shown in front of an item is one more than the item's
    position in the whole sorted sequence, so the numbering runs on from
    page to page. *)
Theorem rank_lines_numbering (v : RankView.t) (j : nat) (n : Z) (x : RankView.item) :
  1 ≤ RankView.page_size v →
  0 ≤ RankView.page v ≤ RankView._total_pages v - 1 →
  rank_lines v !! j = Some (n, x) →
  n = RankView.page v * RankView.page_size v + 1 + Z.of_nat j
  ∧ 1 ≤ n ≤ Z.of_nat (length (RankView.items v))
  ∧ RankView._sorted_items v !! Z.to_nat (n - 1) = Some x.
Proof.
  intros Hk Hp Hline.
  assert (length (RankView._sorted_items v) = length (RankView.items v)) as Hl
    by apply length_sorted.
  unfold RankView._total_pages in Hp.
  destruct (page_start_le _ _ _ Hk (Nat2Z.is_nonneg _) Hp) as [Hstart _].
  rewrite <- Hl in Hstart.
  destruct (py_slice_page (RankView._sorted_items v) _ _ Hk Hstart) as [Hlen Hnth].
  unfold rank_lines, RankView._page_slice in Hline.
  set (sub := py_slice (RankView._sorted_items v) _ _) in *.
  rewrite list_lookup_fmap in Hline. unfold enumerate in Hline.
  rewrite lookup_enumerate_from in Hline.
  destruct (sub !! j) as [y|] eqn:Hj; [|discriminate Hline].
  cbn in Hline. injection Hline as <- <-.
  pose proof (lookup_lt_Some _ _ _ Hj) as Hlt.
  rewrite Hnth in Hj by done. split_and!; try lia.
  rewrite <- Hj. f_equal. lia.
Qed.

Lemma rank_lines_numbering_witness :
  2 = 0 * 15 + 1 + Z.of_nat 1
  ∧ 1 ≤ 2 ≤ Z.of_nat (length [(7%float, 0, "Jazz"%string); (6.7%float, 1, "Pop"%string)])
  ∧ RankView._sorted_items
      (RankView.init 7 [(7%float, 0, "Jazz"%string); (6.7%float, 1, "Pop"%string)])
    !! Z.to_nat (2 - 1) = Some (6.7%float, 1, "Pop"%string).
Proof.
  exact (rank_lines_numbering
           (RankView.init 7 [(7%float, 0, "Jazz"%string); (6.7%float, 1, "Pop"%string)])
           1 2 (6.7%float, 1, "Pop"%string)
           ltac:(simpl; lia) ltac:(vm_compute; split; discriminate) eq_refl).
Defined.

(** ** [/rank] and [/stats] *)

(** A row has a score exactly when it is not Special and has both notes. *)
Lemma is_scored_eligible (r : rating_row) :
  is_scored r = eligible r.
Proof.
  unfold is_scored, eligible, row_score, computed_score.
  destruct (truthy (flag1 r)), (score1 r), (score2 r); simpl; try done.
  by destruct (truthy (flag2 r)).
Qed.

Lemma rank_items_names (genres : list string) (rows : list (Z * rating_row))
    (items : list RankView.item) :
  rank_items genres rows = Some items →
  Forall (λ x, py_index genres (RankView.genre_id x) = Some (snd x)) items.
Proof.
  revert items. induction rows as [|[gid r] rows IH]; intros items H; simpl in H.
  - injection H as <-. constructor.
  - destruct (computed_score _ _ _ _); [|by apply IH].
    destruct (py_index genres gid) eqn:Hg; [|discriminate H].
    destruct (rank_items genres rows); [|discriminate H].
    injection H as <-. constructor; [done|by apply IH].
Qed.

Lemma rank_items_total (genres : list string) (rows : list (Z * rating_row)) :
  (∀ g r, In (g, r) rows → 0 ≤ g < Z.of_nat (length genres)) →
  is_Some (rank_items genres rows).
Proof.
  induction rows as [|[gid r] rows IH]; intros Hrows; simpl; [done|].
  destruct IH as [items Hitems]; [intros g r' Hin; apply (Hrows g r'); by right|].
  destruct (computed_score _ _ _ _); [|by rewrite Hitems].
  destruct (py_index_in_range genres gid (Hrows gid r (or_introl eq_refl)))
    as (name & -> & _).
  by rewrite Hitems.
Qed.

(** X18: when every fetched row is about a genre of the catalogue, [/rank]
    does not fail; it ranks exactly the rows that are not Special and have
    both notes, each under the catalogue's name of its genre, and starts on
    the first page in descending order; with no such row it answers that
    there is nothing to rank. *)
Theorem rank_spec (genres : list string) (rows : list (Z * rating_row)) (u : Z) :
  (∀ g r, In (g, r) rows → 0 ≤ g < Z.of_nat (length genres)) →
  ∃ o, rank genres rows u = Some o
       ∧ match o with
         | RankNothing => List.filter (λ row, eligible (snd row)) rows = []
         | RankShown v =>
             map (λ x, (RankView.genre_id x, Some (RankView.score x)))
               (RankView.items v)
             = map (λ row, (fst row, row_score (snd row)))
                 (List.filter (λ row, eligible (snd row)) rows)
             ∧ Forall (λ x, genres !! Z.to_nat (RankView.genre_id x) = Some (snd x))
                 (RankView.items v)
             ∧ RankView.items v ≠ []
             ∧ RankView.page v = 0 ∧ RankView.order v = Desc
             ∧ RankView.user_id v = u
         end.
Proof.
  intros Hrows. destruct (rank_items_total genres rows Hrows) as [items Hitems].
  pose proof (rank_items_fetch_order genres rows items Hitems) as Horder.
  pose proof (rank_items_names genres rows items Hitems) as Hnames.
  assert (List.filter (λ row, is_scored (snd row)) rows
          = List.filter (λ row, eligible (snd row)) rows) as Hf.
  { apply filter_ext. intros row. apply is_scored_eligible. }
  rewrite Hf in Horder. unfold rank. rewrite Hitems.
  destruct items as [|x items].
  - exists RankNothing. split; [done|].
    destruct (List.filter _ rows); [done|discriminate Horder].
  - eexists. split; [reflexivity|]. cbn [RankView.init RankView.items
      RankView.page RankView.order RankView.user_id].
    split_and!; try done.
    apply Forall_forall. intros y Hy.
    assert (In (RankView.genre_id y, Some (RankView.score y))
              (map (λ x, (RankView.genre_id x, Some (RankView.score x))) (x :: items)))
      as Hin
      by (apply (in_map (λ x, (RankView.genre_id x, Some (RankView.score x)))),
            list_elem_of_In, Hy).
    rewrite Horder in Hin. apply in_map_iff in Hin as ([g r] & [= Hg _] & Hin).
    apply filter_In in Hin as [Hin _].
    rewrite Forall_forall in Hnames. specialize (Hnames y Hy).
    cbn in Hg. rewrite <- Hg in *.
    destruct (py_index_in_range genres g (Hrows g r Hin)) as (name & Hpy & Hl).
    congruence.
Qed.

Lemma rank_spec_witness :
  ∃ o, rank ["Jazz"; "Pop"]%string
         [(1, RatingRow (Some 8) (Some 6) 0 0 None "t");
          (0, RatingRow (Some 9) (Some 9) 1 0 None "t")] 7 = Some o.
Proof.
  destruct (rank_spec ["Jazz"; "Pop"]%string
              [(1, RatingRow (Some 8) (Some 6) 0 0 None "t");
               (0, RatingRow (Some 9) (Some 9) 1 0 None "t")] 7) as (o & Ho & _).
  - intros g r [[= <- <-]|[[= <- <-]|[]]]; simpl; lia.
  - exists o. exact Ho.
Defined.

Lemma stats_loop_acc (genres : list string) (rows : list (Z * rating_row))
    (a st : stats_acc) :
  stats_loop genres a rows = Some st →
  special_count st
  = special_count a
    + Z.of_nat (length (List.filter (λ row, truthy (flag1 (snd row))) rows))
  ∧ (special_count st - special_count a) + (eligible_count st - eligible_count a)
    = Z.of_nat (length rows)
  ∧ 0 ≤ flou_count st - flou_count a ≤ eligible_count st - eligible_count a
  ∧ 0 ≤ scored_count st - scored_count a ≤ eligible_count st - eligible_count a
  ∧ ∃ items,
      rank_items genres rows = Some items
      ∧ scored_items st = scored_items a ++ items
      ∧ scores st = scores a ++ map RankView.score items
      ∧ scored_count st = scored_count a + Z.of_nat (length items).
Proof.
  revert a. induction rows as [|[gid r] rows IH]; intros a H.
  - injection H as <-. split_and!; try (simpl; lia).
    exists []. by rewrite !app_nil_r, Z.add_0_r.
  - cbn [stats_loop stats_row] in H. cbn [rank_items List.filter snd length].
    unfold computed_score in *.
    destruct (truthy (flag1 r)) eqn:Hf1.
    + destruct (IH _ H) as (Hs & Ht & Hfl & Hsc & items & Hr & Hi & Hss & Hc).
      cbn in *. split_and!; try lia. by exists items.
    + destruct (match score1 r with
                | Some skip => _
                | None => None
                end) as [sc|] eqn:Hscore.
      * destruct (py_index genres gid) as [name|]; [|discriminate H].
        destruct (IH _ H) as (Hs & Ht & Hfl & Hsc & items & Hr & Hi & Hss & Hc).
        cbn in *. split_and!; try (destruct (truthy (flag2 r)); lia).
        exists ((sc, gid, name) :: items). rewrite Hr.
        rewrite Hi, Hss, <- !app_assoc. cbn. split_and!; try done. lia.
      * destruct (IH _ H) as (Hs & Ht & Hfl & Hsc & items & Hr & Hi & Hss & Hc).
        cbn in *. split_and!; try (destruct (truthy (flag2 r)); lia).
        by exists items.
Qed.

(** X19: when the loop of [/stats] completes, its counters add up: every
    row is either excluded as Special or taken into account; the Flou rows
    and the scored rows are among those taken into account; and the scored
    items, in number and in order, are exactly the items that [/rank] ranks
    from the same rows. *)
Theorem stats_counts (genres : list string) (rows : list (Z * rating_row))
    (st : stats_acc) :
  stats_loop genres stats_acc_init rows = Some st →
  special_count st + eligible_count st = Z.of_nat (length rows)
  ∧ special_count st
    = Z.of_nat (length (List.filter (λ row, truthy (flag1 (snd row))) rows))
  ∧ 0 ≤ flou_count st ≤ eligible_count st
  ∧ 0 ≤ scored_count st ≤ eligible_count st
  ∧ scored_count st = Z.of_nat (length (scored_items st))
  ∧ rank_items genres rows = Some (scored_items st)
  ∧ scores st = map RankView.score (scored_items st).
Proof.
  intros H.
  destruct (stats_loop_acc genres rows _ st H)
    as (Hs & Ht & Hfl & Hsc & items & Hr & Hi & Hss & Hc).
  cbn in *. subst items. split_and!; try lia; done.
Qed.

Lemma stats_counts_witness :
  ∃ st,
    stats_loop ["Jazz"; "Pop"]%string stats_acc_init
      [(1, RatingRow (Some 8) (Some 6) 0 1 None "t");
       (0, RatingRow (Some 9) None 1 0 None "t")] = Some st
    ∧ special_count st + eligible_count st = 2.
Proof.
  eexists. split; [reflexivity|].
  exact (proj1 (stats_counts ["Jazz"; "Pop"]%string
                  [(1, RatingRow (Some 8) (Some 6) 0 1 None "t");
                   (0, RatingRow (Some 9) None 1 0 None "t")] _ eq_refl)).
Defined.

Lemma py_slice_head {A} (l : list A) (n : Z) :
  0 ≤ n → py_slice l 0 n = take (Z.to_nat n) l.
Proof.
  intros Hn. unfold py_slice, clamp_bound.
  change (0 <? 0) with false. cbv iota.
  destruct (Z.ltb_spec n 0); [lia|].
  rewrite (Z.min_l 0) by lia. rewrite Z.sub_0_r.
  change (drop (Z.to_nat 0) l) with l.
  destruct (Z.le_gt_cases n (Z.of_nat (length l))).
  - by rewrite Z.min_l by done.
  - rewrite Z.min_r by lia. rewrite Nat2Z.id. rewrite !take_ge; [done|lia|done].
Qed.

Lemma py_slice_tail {A} (l : list A) (n : Z) :
  0 < n → py_slice l (- n) (Z.of_nat (length l)) = drop (length l - Z.to_nat n) l.
Proof.
  intros Hn. unfold py_slice, clamp_bound.
  destruct (Z.ltb_spec (- n) 0); [|lia].
  destruct (Z.ltb_spec (Z.of_nat (length l)) 0); [lia|].
  rewrite Z.min_id.
  replace (Z.to_nat (0 `max` (Z.of_nat (length l) + - n)))
    with (length l - Z.to_nat n)%nat by lia.
  apply take_ge. rewrite length_drop. lia.
Qed.

(** X20: after the descending sort, Top 5 is the first five items and
    Bottom 5 is the first five of the reversed order, worst first; with five
    scored items or fewer both hold all of them, Bottom 5 being Top 5 read
    backwards. *)
Theorem stats_top_bottom_spec (scored : list RankView.item) :
  let desc := sorted RankView.score PrimFloat.ltb scored true in
  fst (stats_top_bottom scored) = take 5 desc
  ∧ snd (stats_top_bottom scored) = take 5 (rev desc)
  ∧ ((length scored ≤ 5)%nat →
     fst (stats_top_bottom scored) = desc
     ∧ snd (stats_top_bottom scored) = rev (fst (stats_top_bottom scored))
     ∧ fst (stats_top_bottom scored) ≡ₚ scored).
Proof.
  intros desc. unfold stats_top_bottom. fold desc. cbn [fst snd].
  rewrite (py_slice_head desc 5) by lia.
  pose proof (py_slice_tail desc 5 ltac:(lia)) as Ht.
  change (Z.opp 5) with (Z.neg 5) in Ht. rewrite Ht. clear Ht.
  change (Z.to_nat 5) with 5%nat.
  assert (length desc = length scored) as Hl by apply length_sorted.
  split_and!.
  - done.
  - by rewrite firstn_rev.
  - intros Hle. rewrite take_ge by lia. split_and!.
    + done.
    + f_equal. replace (length desc - 5)%nat with 0%nat by lia. done.
    + apply sorted_perm.
Qed.

(** ** The embed of a genre *)

Lemma str_take_prefix (n : nat) (s : string) :
  str_len (str_take n s) = Nat.min n (str_len s)
  ∧ ∃ rest, s = str_take n s +:+ rest
            ∧ ∀ b r, rest = String b r → is_continuation b = false.
Proof.
  revert n. induction s as [|c s IH]; intros n.
  - simpl. split; [lia|]. exists EmptyString. split; [done|]. intros b r [=].
  - cbn [str_take str_len]. destruct (is_continuation c) eqn:Hc.
    + destruct (IH n) as (Hlen & rest & Hrest & Hb). cbn [str_len]. rewrite Hc.
      split; [done|]. exists rest. split; [|done].
      change (String c (str_take n s) +:+ rest)
        with (String c (str_take n s +:+ rest)). by rewrite <- Hrest.
    + destruct n as [|n].
      * split; [done|]. exists (String c s). split; [done|].
        by intros b r [= <- _].
      * destruct (IH n) as (Hlen & rest & Hrest & Hb). cbn [str_len]. rewrite Hc.
        split; [lia|]. exists rest. split; [|done].
        change (String c (str_take n s) +:+ rest)
          with (String c (str_take n s +:+ rest)). by rewrite <- Hrest.
Qed.

(** X21: the embed of a genre always starts with the fields Skip, Kiff,
    Special and Flou, in this order, and links to the genre's everynoise
    page.  A Commentaire field follows exactly when a non-empty comment is
    stored; it holds the first 900 characters of the comment, whole
    characters and never more, counting a character of several bytes
    once. *)
Theorem build_embed_fields (d : db) (genre_id : Z) (genre_name : string)
    (user_id : Z) :
  let e := build_embed d genre_id genre_name user_id in
  embed_description e = everynoise_url genre_name
  ∧ map (λ f, fst (fst f)) (take 4 (embed_fields e))
    = ["Skip"; "Kiff"; "Special"; "Flou"]%string
  ∧ match get_rating d user_id genre_id ≫= comment with
    | Some (String a c') =>
        ∃ value rest,
          drop 4 (embed_fields e) = [("Commentaire"%string, value, false)]
          ∧ String a c' = value +:+ rest
          ∧ str_len value = Nat.min 900 (str_len (String a c'))
          ∧ ∀ b r, rest = String b r → is_continuation b = false
    | _ => drop 4 (embed_fields e) = []
    end.
Proof.
  intros e. subst e. unfold build_embed.
  destruct (get_rating d user_id genre_id) as [r|]; cbn [mbind option_bind];
    [|by cbn].
  split; [done|]. split; [done|].
  destruct (comment r) as [[|a c']|]; cbn [PyStr.is_empty]; try done.
  destruct (str_take_prefix 900 (String a c')) as (Hlen & rest & Hrest & Hb).
  exists (str_take 900 (String a c')), rest. done.
Qed.

(** An accented letter is one character of two bytes: of a comment of 901
    characters that begins with one, 900 characters are shown, 901 bytes. *)
Example str_take_accent :
  String.length (str_take 900 ("é" +:+ string_of_list_ascii (repeat "a"%char 899) +:+ "b")) = 901%nat
  ∧ str_len (str_take 900 ("é" +:+ string_of_list_ascii (repeat "a"%char 899) +:+ "b")) = 900%nat.
Proof. by vm_compute. Qed.
